(** * Entities service: identity grammar, write coordination and search

    A shallow embedding of
    - [entities_service/models/__init__.py] (the [URI_REGEX] identity grammar),
    - [entities_service/service/routers/entities.py] (the routes), and
    - [tests/service/routers/conftest.py] (the in-memory [MockBackend]),
    together with the properties of these that the specification states.

    Strings are UTF-8: a character is the one to four bytes that encode its
    code point, and a string that is not UTF-8 stands for no Python string.
    A route is a computation
    over the state of the store that also records the calls it makes on the
    backend; it returns a status code and a value, or raises.  The texts of
    exceptions and log lines are left out. *)

From Stdlib Require Import Ascii String.
From stdpp Require Import base option list strings gmap sorting.

Local Open Scope string_scope.
Local Open Scope list_scope.

(** ** A backtracking matcher for the regular expressions of [re]

    Only the constructs occurring in [URI_REGEX] are modelled.  The matcher is
    written in continuation-passing style, so that the order in which Python's
    backtracking engine explores the alternatives (greedy first) is explicit:
    the result is the first successful path. *)

Module Regex.

Inductive re : Type :=
| Lit (s : string)               (* a literal run of characters *)
| Dot                            (* [.] : any character except a newline *)
| Digit                          (* [\d] *)
| NoneOf (cs : list ascii)       (* [[^...]] *)
| Cat (r1 r2 : re)               (* concatenation *)
| Opt (r : re)                   (* greedy [r?] *)
| Plus (r : re)                  (* greedy [r+] *)
| Upto (n : nat) (r : re)        (* greedy [r{0,n}] *)
| Group (name : string) (r : re) (* [(?P<name>r)] *)
| Eos.                           (* [$] without MULTILINE *)

Definition newline : ascii := "010"%char.

(** The code point of a one-byte character. *)
Definition code (a : ascii) : N := N_of_ascii a.

(** The payload of a continuation byte [10xxxxxx]. *)
Definition continuation (b : ascii) : option N :=
  if (128 <=? code b)%N && (code b <? 192)%N then Some (code b - 128)%N else None.

(** The first character of the input: its code point, and the input after
    it.  There is none at the end of the input, and none where the input is
    not UTF-8 (a stray continuation byte, a sequence cut short, an overlong
    form, a surrogate, a code point above [U+10FFFF]). *)
Definition next_char (inp : list ascii) : option (N * list ascii) :=
  match inp with
  | [] => None
  | b0 :: inp1 =>
      if (code b0 <? 128)%N then Some (code b0, inp1)
      else if (code b0 <? 192)%N then None
      else if (code b0 <? 224)%N then
        match inp1 with
        | b1 :: inp2 =>
            match continuation b1 with
            | Some x1 =>
                let c := ((code b0 - 192) * 64 + x1)%N in
                if (128 <=? c)%N then Some (c, inp2) else None
            | None => None
            end
        | _ => None
        end
      else if (code b0 <? 240)%N then
        match inp1 with
        | b1 :: b2 :: inp3 =>
            match continuation b1, continuation b2 with
            | Some x1, Some x2 =>
                let c := ((code b0 - 224) * 4096 + x1 * 64 + x2)%N in
                if (2048 <=? c)%N && negb ((55296 <=? c)%N && (c <=? 57343)%N)
                then Some (c, inp3) else None
            | _, _ => None
            end
        | _ => None
        end
      else if (code b0 <? 248)%N then
        match inp1 with
        | b1 :: b2 :: b3 :: inp4 =>
            match continuation b1, continuation b2, continuation b3 with
            | Some x1, Some x2, Some x3 =>
                let c := ((code b0 - 240) * 262144 + x1 * 4096 + x2 * 64 + x3)%N in
                if (65536 <=? c)%N && (c <=? 1114111)%N then Some (c, inp4) else None
            | _, _, _ => None
            end
        | _ => None
        end
      else None
  end.

(** The decimal digits: the code points of category [Nd] in Unicode 14.0,
    the character database of CPython 3.11, as ranges. *)
Definition Nd : list (N * N) :=
  [(48, 57); (1632, 1641); (1776, 1785); (1984, 1993); (2406, 2415); (2534, 2543);
   (2662, 2671); (2790, 2799); (2918, 2927); (3046, 3055); (3174, 3183); (3302, 3311);
   (3430, 3439); (3558, 3567); (3664, 3673); (3792, 3801); (3872, 3881); (4160, 4169);
   (4240, 4249); (6112, 6121); (6160, 6169); (6470, 6479); (6608, 6617); (6784, 6793);
   (6800, 6809); (6992, 7001); (7088, 7097); (7232, 7241); (7248, 7257);
   (42528, 42537); (43216, 43225); (43264, 43273); (43472, 43481); (43504, 43513);
   (43600, 43609); (44016, 44025); (65296, 65305); (66720, 66729); (68912, 68921);
   (69734, 69743); (69872, 69881); (69942, 69951); (70096, 70105); (70384, 70393);
   (70736, 70745); (70864, 70873); (71248, 71257); (71360, 71369); (71472, 71481);
   (71904, 71913); (72016, 72025); (72784, 72793); (73040, 73049); (73120, 73129);
   (92768, 92777); (92864, 92873); (93008, 93017); (120782, 120831); (123200, 123209);
   (123632, 123641); (125264, 125273); (130032, 130041)]%N.

(** [\d] in a [str] pattern without [re.ASCII]: any Unicode decimal digit. *)
Definition is_digit (c : N) : bool :=
  existsb (fun r => (fst r <=? c)%N && (c <=? snd r)%N) Nd.

Definition none_of (cs : list ascii) (c : N) : bool :=
  negb (existsb (fun a => N.eqb (code a) c) cs).

(** Named groups, most recent binding last. *)
Definition captures : Type := list (string * list ascii).

Definition cont : Type := list ascii → captures → option captures.

Definition orelse (a : option captures) (b : option captures) : option captures :=
  match a with Some e => Some e | None => b end.

(** One character of a class. *)
Definition one (p : N → bool) (inp : list ascii) (env : captures) (k : cont)
  : option captures :=
  match next_char inp with
  | Some (c, rest) => if p c then k rest env else None
  | None => None
  end.

Fixpoint strip_prefix (p inp : list ascii) : option (list ascii) :=
  match p, inp with
  | [], _ => Some inp
  | a :: p', c :: inp' => if Ascii.eqb a c then strip_prefix p' inp' else None
  | _ :: _, [] => None
  end.

(** [r+]: one iteration of [r], then as many more as possible, each of which
    has to consume input; [fuel] bounds the number of iterations and is taken
    larger than the input is long. *)
Fixpoint plus_loop (step : list ascii → captures → cont → option captures)
    (fuel : nat) (inp : list ascii) (env : captures) (k : cont) : option captures :=
  match fuel with
  | O => None
  | S fuel' =>
      step inp env (fun rest env' =>
        orelse (if decide (length rest < length inp)
                then plus_loop step fuel' rest env' k else None)
               (k rest env'))
  end.

(** [r{0,n}]: up to [n] iterations, the most first. *)
Fixpoint upto_loop (step : list ascii → captures → cont → option captures)
    (n : nat) (inp : list ascii) (env : captures) (k : cont) : option captures :=
  match n with
  | O => k inp env
  | S n' =>
      orelse (step inp env (fun rest env' => upto_loop step n' rest env' k))
             (k inp env)
  end.

(** [$] matches at the end of the string and just before a newline that ends
    the string. *)
Definition at_end (inp : list ascii) : bool :=
  match inp with
  | [] => true
  | [c] => Ascii.eqb c newline
  | _ => false
  end.

Fixpoint run (r : re) (inp : list ascii) (env : captures) (k : cont)
  : option captures :=
  match r with
  | Lit s =>
      match strip_prefix (list_ascii_of_string s) inp with
      | Some rest => k rest env
      | None => None
      end
  | Dot => one (fun c => negb (N.eqb c (code newline))) inp env k
  | Digit => one is_digit inp env k
  | NoneOf cs => one (none_of cs) inp env k
  | Cat r1 r2 => run r1 inp env (fun rest env' => run r2 rest env' k)
  | Opt r1 => orelse (run r1 inp env k) (k inp env)
  | Plus r1 => plus_loop (run r1) (S (length inp)) inp env k
  | Upto n r1 => upto_loop (run r1) n inp env k
  | Group name r1 =>
      run r1 inp env (fun rest env' =>
        k rest (env' ++ [(name, take (length inp - length rest) inp)]))
  | Eos => if at_end inp then k inp env else None
  end.

(** [re.match]: the pattern is tried at the start of the string only. *)
Definition re_match (r : re) (s : string) : option captures :=
  run r (list_ascii_of_string s) [] (fun _ env => Some env).

(** [m.group(name)] *)
Fixpoint group (name : string) (env : captures) : option string :=
  match env with
  | [] => None
  | (n, v) :: env' =>
      match group name env' with
      | Some s => Some s
      | None => if String.eqb n name then Some (string_of_list_ascii v) else None
      end
  end.

Fixpoint nogroups (r : re) : bool :=
  match r with
  | Cat r1 r2 => nogroups r1 && nogroups r2
  | Opt r1 | Plus r1 | Upto _ r1 => nogroups r1
  | Group _ _ => false
  | _ => true
  end.

End Regex.

(** ** [entities_service.models] *)

Import Regex.

(** [^(?P<namespace>https?://.+)/(?P<version>\d(?:\.\d+){0,2})/(?P<name>[^/#?]+)$] *)
Definition URI_REGEX : re :=
  Cat (Group "namespace"
         (Cat (Lit "http") (Cat (Opt (Lit "s")) (Cat (Lit "://") (Plus Dot)))))
  (Cat (Lit "/")
  (Cat (Group "version"
         (Cat Digit (Upto 2 (Cat (Lit ".") (Plus Digit)))))
  (Cat (Lit "/")
  (Cat (Group "name" (Plus (NoneOf ["/"; "#"; "?"]%char)))
       Eos)))).

(** The three components of an identity, as the named groups of a match. *)
Record Identity : Type := mkIdentity {
  namespace : string;
  version : string;
  name : string
}.

Definition parse (candidate : string) : option Identity :=
  match re_match URI_REGEX candidate with
  | Some env =>
      match group "namespace" env, group "version" env, group "name" env with
      | Some ns, Some v, Some n => Some (mkIdentity ns v n)
      | _, _, _ => None
      end
  | None => None
  end.

(** [f"{namespace}/{version}/{name}"] *)
Definition compose (i : Identity) : string :=
  namespace i +:+ "/" +:+ version i +:+ "/" +:+ name i.

(** [URI_REGEX.match(s) is not None] *)
Definition uri_valid (s : string) : bool :=
  match re_match URI_REGEX s with Some _ => true | None => false end.


(** ** Python values and documents *)

(** The JSON-like values an entity document is made of. *)
#[warnings="-register-all"]
Inductive value : Type :=
| VNone
| VBool (b : bool)
| VInt (z : Z)
| VStr (s : string)
| VList (l : list value)
| VDict (d : list (string * value)).

(** [dict[str, Any]], keys in insertion order. *)
Definition document : Type := list (string * value).

(** [d.get(key)] *)
Fixpoint dict_get {A} (key : string) (d : list (string * A)) : option A :=
  match d with
  | [] => None
  | (k, v) :: d' => if String.eqb k key then Some v else dict_get key d'
  end.

(** [key in d] *)
Definition dict_has {A} (key : string) (d : list (string * A)) : bool :=
  match dict_get key d with Some _ => true | None => false end.

(** Python's [==] on values: dictionaries compare without regard to the order
    of their keys, and [True == 1]. *)
Fixpoint value_eqb (a b : value) : bool :=
  match a, b with
  | VNone, VNone => true
  | VBool x, VBool y => Bool.eqb x y
  | VInt x, VInt y => Z.eqb x y
  | VBool x, VInt y => Z.eqb (if x then 1 else 0) y
  | VInt x, VBool y => Z.eqb x (if y then 1 else 0)
  | VStr x, VStr y => String.eqb x y
  | VList x, VList y =>
      (fix all2 (x y : list value) : bool :=
         match x, y with
         | [], [] => true
         | v :: x', w :: y' => value_eqb v w && all2 x' y'
         | _, _ => false
         end) x y
  | VDict x, VDict y =>
      Nat.eqb (length x) (length y) &&
      (fix sub (x : list (string * value)) : bool :=
         match x with
         | [] => true
         | (k, v) :: x' =>
             match dict_get k y with
             | Some w => value_eqb v w
             | None => false
             end && sub x'
         end) x
  | _, _ => false
  end.

Definition document_eqb (a b : document) : bool := value_eqb (VDict a) (VDict b).

(** [x in xs] for a list of documents *)
Definition document_in (x : document) (xs : list document) : bool :=
  existsb (document_eqb x) xs.

(** [s.rstrip("/")] *)
Fixpoint rstrip_slash_chars (l : list ascii) : list ascii :=
  match l with
  | [] => []
  | c :: l' =>
      match rstrip_slash_chars l' with
      | [] => if Ascii.eqb c "/"%char then [] else [c]
      | r => c :: r
      end
  end.

Definition rstrip_slash (s : string) : string :=
  string_of_list_ascii (rstrip_slash_chars (list_ascii_of_string s)).

(** [", ".join(...)] is used for log and error texts only and is not needed
    below; exceptions carry their class and status code, not their text. *)

(** ** Exceptions, responses and the request monad *)

Definition HTTP_200_OK : nat := 200.
Definition HTTP_201_CREATED : nat := 201.
Definition HTTP_204_NO_CONTENT : nat := 204.
Definition HTTP_400_BAD_REQUEST : nat := 400.
Definition HTTP_404_NOT_FOUND : nat := 404.
Definition HTTP_502_BAD_GATEWAY : nat := 502.

(** The exceptions of Python and of the backends. *)
Inductive error : Type :=
| UnboundLocalError (variable : string)
| KeyError (key : string)
| AttributeError (attribute : string)
| IndexError
| BackendError (msg : string)
| BackendWriteAccessError (msg : string)
| MockBackendError (msg : string).

(** What a route can raise: FastAPI's [HTTPException], raised by the routes
    only, or any other exception passing through. *)
Inductive exn : Type :=
| HTTPException (status_code : nat)
| Error (e : error).

Inductive result (E A : Type) : Type :=
| Ok (a : A)
| Raise (e : E).
Arguments Ok {E A} a.
Arguments Raise {E A} e.

(** What a route hands back: the status code in force when it returns (the
    one of the route decorator unless [response.status_code] was assigned)
    and the returned value. *)
Record response (A : Type) : Type := mkResponse {
  status_code : nat;
  body : A
}.
Arguments mkResponse {A} _ _.
Arguments status_code {A} _.
Arguments body {A} _.

(** What [Backend.create] returns: [None], one document or a list. *)
Inductive created : Type :=
| CreatedNone
| CreatedDict (d : document)
| CreatedList (l : list document).

Definition is_list (c : created) : bool :=
  match c with CreatedList _ => true | _ => false end.

Definition is_none (c : created) : bool :=
  match c with CreatedNone => true | _ => false end.

(** A parameter that is either one item or a list of them. *)
Inductive one_or_many (A : Type) : Type :=
| Single (x : A)
| Many (xs : list A).
Arguments Single {A} x.
Arguments Many {A} xs.

(** The calls made on the backend, in order. *)
Inductive call : Type :=
| CallContains (identity : string)
| CallCreate (entities : list document)
| CallRead (identity : string)
| CallUpdate (identity : string) (entity : document)
| CallDelete (identities : list string)
| CallSearch (by_properties by_dimensions by_identity : option (list string)).

Definition is_update (c : call) : bool :=
  match c with CallUpdate _ _ => true | _ => false end.

(** ** The backend interface

    [S] is the state of the store.  Reads leave it as it is. *)
Class Backend (S : Type) : Type := {
  contains : string → S → bool;
  create : list document → S → result error created * S;
  read : string → S → result error (option document);
  update : string → document → S → result error unit * S;
  delete : list string → S → result error unit * S;
  search : option (list string) → option (list string) → option (list string) →
           S → result error (list document);
  write_access_exception : error → bool
}.

(** A request runs against the store and records its backend calls. *)
Definition M (S A : Type) : Type :=
  S * list call → result exn A * (S * list call).

Section Monad.
Context {S : Type}.

Definition ret {A} (a : A) : M S A := fun w => (Ok a, w).

Definition raise {A} (e : exn) : M S A := fun w => (Raise e, w).

Definition bind {A B} (m : M S A) (f : A → M S B) : M S B :=
  fun w =>
    match m w with
    | (Ok a, w') => f a w'
    | (Raise e, w') => (Raise e, w')
    end.

(** [try: m  except classes as err: handler] *)
Definition try_except {A} (m : M S A) (classes : error → bool)
    (handler : error → M S A) : M S A :=
  fun w =>
    match m w with
    | (Raise (Error e), w') => if classes e then handler e w' else (Raise (Error e), w')
    | (r, w') => (r, w')
    end.

(** What a backend raises passes through as it is. *)
Definition lift {A} (r : result error A) : result exn A :=
  match r with
  | Ok a => Ok a
  | Raise e => Raise (Error e)
  end.

(** A mutating backend call. *)
Definition invoke {A} (c : call) (f : S → result error A * S) : M S A :=
  fun w =>
    let '(r, s') := f (fst w) in
    (lift r, (s', snd w ++ [c])).

(** A backend call that only reads. *)
Definition query {A} (c : call) (f : S → result error A) : M S A :=
  fun w => (lift (f (fst w)), (fst w, snd w ++ [c])).
End Monad.

Notation "'let!' x ':=' m 'in' k" := (bind m (fun x => k))
  (at level 10, x name, m at level 100, k at level 200,
   format "'let!'  x  ':='  m  'in'  '//' k").
Notation "m '>>' k" := (bind m (fun _ => k))
  (at level 100, k at level 200, right associativity).

Section Loops.
Context {S : Type}.

(** [for x in xs: body] *)
Fixpoint for_each {A} (xs : list A) (body : A → M S unit) : M S unit :=
  match xs with
  | [] => ret tt
  | x :: xs' => body x >> for_each xs' body
  end.

(** [[x for x in xs if cond(x)]] *)
Fixpoint comprehension {A} (xs : list A) (cond : A → M S bool) : M S (list A) :=
  match xs with
  | [] => ret []
  | x :: xs' =>
      let! b := cond x in
      let! rest := comprehension xs' cond in
      ret (if b then x :: rest else rest)
  end.
End Loops.

(** ** [entities_service.service.routers.entities] *)

(** The set built from the body and the query of [DELETE /entities/]. *)
Definition delete_set (identities_body : option (one_or_many string))
    (identities_query : option (list string)) : gset string :=
  let identities : gset string := ∅ in
  let identities :=
    match identities_body with
    | Some (Single identity) => identities ∪ {[identity]}
    | Some (Many l) => identities ∪ list_to_set l
    | None => identities
    end in
  match identities_query with
  | Some l => identities ∪ list_to_set l
  | None => identities
  end.

(** [s1 <= s2] on [str]: lexicographic, character by character. *)
Definition str_le (s1 s2 : string) : Prop := String.leb s1 s2 = true.

Global Instance str_le_dec : RelDecision str_le.
Proof. intros s1 s2. unfold str_le. apply _. Defined.

(** [sorted(identities)] *)
Definition sorted (identities : gset string) : list string :=
  merge_sort str_le (elements identities).

Section Routers.
Context {S : Type} {B : Backend S}.

(** [entities_service.service.utils.get_uri] is not part of the sources at
    hand; the routes are stated for any such function.  It is total here:
    the routes apply it to every entity of the batch when they build the
    text of their write failure, before they do anything else. *)
Variable get_uri : document → string.

(** Python's built-in [str], as applied by an f-string to a field. *)
Variable py_str : value → string.

(** [identity in entities_backend] *)
Definition in_backend (identity : string) : M S bool :=
  query (CallContains identity) (fun s => Ok (contains identity s)).

(** [isinstance(entities, list)] and the wrapping of a single entity.
    [None] stands for the empty list, on which every batch route returns
    early. *)
Definition as_batch {A} (entities : one_or_many A) : option (list A) :=
  match entities with
  | Many [] => None
  | Many xs => Some xs
  | Single x => Some [x]
  end.

(** The condition under which the value returned by [create] is taken as a
    failure. *)
Definition create_failed (n : nat) (created_entities : created) : bool :=
  is_none created_entities
  || (Nat.eqb n 1 && is_list created_entities)
  || (Nat.ltb 1 n && negb (is_list created_entities)).

(** [GET /entities/] *)
Definition get_entities (identities properties dimensions : option (list string))
  : M S (response (list document)) :=
  let! entities :=
    query (CallSearch properties dimensions identities)
          (search properties dimensions identities) in
  match entities with
  | _ :: _ => ret (mkResponse HTTP_200_OK entities)
  | [] => raise (HTTPException HTTP_404_NOT_FOUND)
  end.

(** [POST /entities/] *)
Definition create_entities (entities : one_or_many document)
  : M S (response created) :=
  match as_batch entities with
  | None => ret (mkResponse HTTP_204_NO_CONTENT CreatedNone)
  | Some entities =>
      let write_fail_exception := HTTPException HTTP_502_BAD_GATEWAY in
      let! created_entities :=
        try_except (invoke (CallCreate entities) (create entities))
          write_access_exception (fun _ => raise write_fail_exception) in
      if create_failed (length entities) created_entities
      then raise write_fail_exception
      else ret (mkResponse HTTP_201_CREATED created_entities)
  end.

(** [PUT /entities/].  The local [created_entities] is bound only when
    there are new entities; [None] is the unbound local. *)
Definition update_entities (entities : one_or_many document)
  : M S (response created) :=
  match as_batch entities with
  | None => ret (mkResponse HTTP_201_CREATED CreatedNone)
  | Some entities =>
      let write_fail_exception := HTTPException HTTP_502_BAD_GATEWAY in
      let! new_entities :=
        comprehension entities
          (fun entity => let! b := in_backend (get_uri entity) in ret (negb b)) in
      let! created_entities :=
        match new_entities with
        | _ :: _ =>
            let! c :=
              try_except (invoke (CallCreate new_entities) (create new_entities))
                write_access_exception (fun _ => raise write_fail_exception) in
            ret (Some c)
        | [] => ret None
        end in
      let! checked :=
        match created_entities with
        | None => raise (Error (UnboundLocalError "created_entities"))
        | Some c =>
            if create_failed (length new_entities) c
            then raise write_fail_exception
            else ret c
        end in
      for_each entities (fun entity =>
        if document_in entity new_entities then ret tt
        else
          let! b := in_backend (get_uri entity) in
          if b then
            try_except
              (invoke (CallUpdate (get_uri entity) entity)
                      (update (get_uri entity) entity))
              write_access_exception (fun _ => raise write_fail_exception)
          else ret tt) >>
      match new_entities with
      | _ :: _ => ret (mkResponse HTTP_201_CREATED checked)
      | [] => ret (mkResponse HTTP_204_NO_CONTENT CreatedNone)
      end
  end.

(** [PATCH /entities/] *)
Definition patch_entities (entities : one_or_many document)
  : M S (response unit) :=
  match as_batch entities with
  | None => ret (mkResponse HTTP_204_NO_CONTENT tt)
  | Some entities =>
      let write_fail_exception := HTTPException HTTP_502_BAD_GATEWAY in
      let! non_existing_entities :=
        comprehension entities
          (fun entity => let! b := in_backend (get_uri entity) in ret (negb b)) in
      match non_existing_entities with
      | _ :: _ => raise write_fail_exception
      | [] =>
          for_each entities (fun entity =>
            try_except
              (invoke (CallUpdate (get_uri entity) entity)
                      (update (get_uri entity) entity))
              write_access_exception (fun _ => raise write_fail_exception)) >>
          ret (mkResponse HTTP_204_NO_CONTENT tt)
      end
  end.

(** [DELETE /entities/] *)
Definition delete_entities (identities_body : option (one_or_many string))
    (identities_query : option (list string)) : M S (response (list string)) :=
  let identities := delete_set identities_body identities_query in
  if decide (identities = ∅) then raise (HTTPException HTTP_400_BAD_REQUEST)
  else
    try_except
      (invoke (CallDelete (elements identities)) (delete (elements identities)))
      write_access_exception
      (fun _ => raise (HTTPException HTTP_502_BAD_GATEWAY)) >>
    ret (mkResponse HTTP_200_OK (sorted identities)).

(** [GET /entities/{identity}] *)
Definition get_entity (identity : string) : M S (response document) :=
  let! entity := query (CallRead identity) (read identity) in
  match entity with
  | None => raise (HTTPException HTTP_404_NOT_FOUND)
  | Some entity => ret (mkResponse HTTP_200_OK entity)
  end.

(** [POST /entities/{identity}] *)
Definition create_entity (identity : string) (entity : document)
  : M S (response document) :=
  let write_fail_exception := HTTPException HTTP_502_BAD_GATEWAY in
  let! created_entity :=
    try_except (invoke (CallCreate [entity]) (create [entity]))
      write_access_exception (fun _ => raise write_fail_exception) in
  match created_entity with
  | CreatedDict d =>
      if String.eqb (get_uri d) identity
      then ret (mkResponse HTTP_201_CREATED d)
      else raise write_fail_exception
  | _ => raise write_fail_exception
  end.

(** [PUT /entities/{identity}] *)
Definition update_entity (identity : string) (entity : document)
  : M S (response (option document)) :=
  if negb (String.eqb identity (get_uri entity))
  then raise (HTTPException HTTP_400_BAD_REQUEST)
  else
    let! b := in_backend identity in
    if negb b then
      try_except (invoke (CallCreate [entity]) (create [entity]))
        write_access_exception
        (fun _ => raise (HTTPException HTTP_502_BAD_GATEWAY)) >>
      ret (mkResponse HTTP_201_CREATED (Some entity))
    else
      try_except (invoke (CallUpdate identity entity) (update identity entity))
        write_access_exception
        (fun _ => raise (HTTPException HTTP_502_BAD_GATEWAY)) >>
      ret (mkResponse HTTP_204_NO_CONTENT None).

(** The identity check of [PATCH /entities/{identity}]:
    [Ok true] when the [if] is taken.  [None] in the second component is
    the local [uri] left unbound by the walrus that was not reached. *)
Definition patch_mismatch (identity : string) (entity : document)
  : result error (bool * option string) :=
  let by_uri :=
    match dict_get "uri" entity with
    | Some v => negb (value_eqb v (VStr identity))
    | None => false
    end in
  if by_uri then Ok (true, None)
  else
    match dict_get "namespace" entity with
    | None => Ok (false, None)
    | Some (VStr ns) =>
        let uri :=
          rstrip_slash ns +:+ "/" +:+
          py_str (default VNone (dict_get "version" entity)) +:+ "/" +:+
          py_str (default VNone (dict_get "name" entity)) in
        Ok (negb (String.eqb uri identity), Some uri)
    | Some _ => Raise (AttributeError "rstrip")
    end.

(** [PATCH /entities/{identity}].  Building the text of the mismatch error
    evaluates [entity.get('uri', uri)], which reads the local [uri]. *)
Definition patch_entity (identity : string) (entity : document)
  : M S (response unit) :=
  match patch_mismatch identity entity with
  | Raise e => raise (Error e)
  | Ok (true, None) => raise (Error (UnboundLocalError "uri"))
  | Ok (true, Some _) => raise (HTTPException HTTP_400_BAD_REQUEST)
  | Ok (false, _) =>
      let! b := in_backend identity in
      if negb b then raise (HTTPException HTTP_404_NOT_FOUND)
      else
        try_except (invoke (CallUpdate identity entity) (update identity entity))
          write_access_exception
          (fun _ => raise (HTTPException HTTP_502_BAD_GATEWAY)) >>
        ret (mkResponse HTTP_204_NO_CONTENT tt)
  end.

(** [DELETE /entities/{identity}] *)
Definition delete_entity (identity : string) : M S (response string) :=
  let! b := in_backend identity in
  if negb b then raise (HTTPException HTTP_404_NOT_FOUND)
  else
    try_except (invoke (CallDelete [identity]) (delete [identity]))
      write_access_exception
      (fun _ => raise (HTTPException HTTP_502_BAD_GATEWAY)) >>
    ret (mkResponse HTTP_200_OK identity).
End Routers.

(** ** [tests/service/routers/conftest.py]: the in-memory backend *)

(** The two parallel lists [__test_data] and [__test_data_uris] of one
    backend.  A route builds its backend when it is called: from one request
    to the next the documents stay, and the identities are those that
    [mock_init] computes from them. *)
Record MockStore : Type := mkMockStore {
  test_data : list document;
  test_data_uris : list string
}.

(** [l.index(x)], for [x in l]: the position of the first occurrence. *)
Fixpoint index (x : string) (l : list string) : nat :=
  match l with
  | [] => 0
  | y :: l' => if String.eqb y x then 0 else Datatypes.S (index x l')
  end.

(** [l.remove(x)], for [x in l]: drops the first occurrence. *)
Fixpoint remove (x : string) (l : list string) : list string :=
  match l with
  | [] => []
  | y :: l' => if String.eqb y x then l' else y :: remove x l'
  end.

(** [requested in (prop.get("name") for prop in props)]: the generator is
    consumed up to the first hit. *)
Fixpoint name_in (requested : string) (props : list value) : result error bool :=
  match props with
  | [] => Ok false
  | VDict prop :: props' =>
      if value_eqb (VStr requested) (default VNone (dict_get "name" prop))
      then Ok true
      else name_in requested props'
  | _ :: _ => Raise (AttributeError "get")
  end.

(** [any(requested in (...) for requested in by)] *)
Fixpoint any_name_in (by_names : list string) (props : list value) : result error bool :=
  match by_names with
  | [] => Ok false
  | requested :: by' =>
      match name_in requested props with
      | Ok true => Ok true
      | Ok false => any_name_in by' props
      | Raise e => Raise e
      end
  end.

(** The test applied by [search] to the ["properties"] or ["dimensions"]
    field of one entity, for a non-empty list of requested names. *)
Definition field_matches (field invalid : string) (by_names : list string)
    (entity : document) : result error bool :=
  match dict_get field entity with
  | None =>
      (* [entity.get(field, {})] is a dict, and [entity[field]] fails *)
      match by_names with [] => Ok false | _ :: _ => Raise (KeyError field) end
  | Some (VDict d) => Ok (existsb (fun requested => dict_has requested d) by_names)
  | Some (VList l) => any_name_in by_names l
  | Some _ => Raise (MockBackendError invalid)
  end.

(** [for entity in self._test_data: if <test>: results.append(entity)] *)
Fixpoint select (test : document → result error bool) (data : list document)
  : result error (list document) :=
  match data with
  | [] => Ok []
  | entity :: data' =>
      match test entity with
      | Raise e => Raise e
      | Ok b =>
          match select test data' with
          | Raise e => Raise e
          | Ok rest => Ok (if b then entity :: rest else rest)
          end
      end
  end.

(** [if by: ...] : the filter is applied when it is given and not empty. *)
Definition truthy (by_names : option (list string)) : list string :=
  default [] by_names.

Section Mock.
(** As for the routers, [get_uri] is a parameter; so is the base class's
    [_prepare_entity]. *)
Variable get_uri : document → string.
Variable _prepare_entity : document → document.

(** [__init__]: the documents are the list [backend_test_data] of the
    test, which the backends share and change in place; each backend
    computes the identities from them when it is built. *)
Definition mock_init (backend_test_data : list document) : MockStore :=
  mkMockStore backend_test_data (map get_uri backend_test_data).

Definition mock_create (entities : list document) (st : MockStore)
  : result error created * MockStore :=
  let entities := map _prepare_entity entities in
  let entity_identities := map get_uri entities in
  match entities with
  | [] => (Ok CreatedNone, st)
  | first :: others =>
      let st' := mkMockStore (test_data st ++ entities)
                             (test_data_uris st ++ entity_identities) in
      match others with
      | _ :: _ => (Ok (CreatedList entities), st')
      | [] => (Ok (CreatedDict first), st')
      end
  end.

(** [self._test_data[self.__test_data_uris.index(identity)]] *)
Definition stored (identity : string) (st : MockStore) : result error document :=
  match test_data st !! index identity (test_data_uris st) with
  | Some entity => Ok entity
  | None => Raise IndexError
  end.

Definition mock_read (entity_identity : string) (st : MockStore)
  : result error (option document) :=
  if decide (entity_identity ∈ test_data_uris st) then
    match stored entity_identity st with
    | Ok entity => Ok (Some entity)
    | Raise e => Raise e
    end
  else Ok None.

Definition mock_update (entity_identity : string) (entity : document)
    (st : MockStore) : result error unit * MockStore :=
  if negb (uri_valid entity_identity)
  then (Raise (MockBackendError "Invalid entity URI"), st)
  else
    let entity := _prepare_entity entity in
    if decide (entity_identity ∈ test_data_uris st) then
      let i := index entity_identity (test_data_uris st) in
      if decide (i < length (test_data st))
      then (Ok tt, mkMockStore (<[i := entity]> (test_data st)) (test_data_uris st))
      else (Raise IndexError, st)
    else (Ok tt, st).

Fixpoint mock_delete_loop (entity_identities : list string) (st : MockStore)
  : result error unit * MockStore :=
  match entity_identities with
  | [] => (Ok tt, st)
  | identity :: rest =>
      if decide (identity ∈ test_data_uris st) then
        let i := index identity (test_data_uris st) in
        if decide (i < length (test_data st)) then
          mock_delete_loop rest
            (mkMockStore (base.delete i (test_data st))
                         (remove identity (test_data_uris st)))
        else (Raise IndexError, st)
      else mock_delete_loop rest st
  end.

Definition mock_delete (entity_identities : list string) (st : MockStore)
  : result error unit * MockStore :=
  if existsb (fun identity => negb (uri_valid identity)) entity_identities
  then (Raise (MockBackendError "One or more invalid entity URIs given."), st)
  else mock_delete_loop entity_identities st.

(** [for identity in by_identity: if identity in uris: results.append(...)] *)
Fixpoint lookup_all (by_identity : list string) (st : MockStore)
  : result error (list document) :=
  match by_identity with
  | [] => Ok []
  | identity :: rest =>
      if decide (identity ∈ test_data_uris st) then
        match stored identity st with
        | Raise e => Raise e
        | Ok entity =>
            match lookup_all rest st with
            | Raise e => Raise e
            | Ok more => Ok (entity :: more)
            end
        end
      else lookup_all rest st
  end.

(** [search] with [raw_query=None], as the routers call it. *)
Definition mock_search (by_properties by_dimensions by_identity : option (list string))
    (st : MockStore) : result error (list document) :=
  match
    match truthy by_properties with
    | [] => Ok []
    | names => select (field_matches "properties" "Invalid entity properties." names)
                      (test_data st)
    end
  with
  | Raise e => Raise e
  | Ok by_props =>
      match
        match truthy by_dimensions with
        | [] => Ok []
        | names => select (field_matches "dimensions" "Invalid entity dimensions." names)
                          (test_data st)
        end
      with
      | Raise e => Raise e
      | Ok by_dims =>
          match lookup_all (truthy by_identity) st with
          | Raise e => Raise e
          | Ok by_ids => Ok (by_props ++ by_dims ++ by_ids)
          end
      end
  end.

(** [MockBackendWriteAccessError = (MockBackendError, BackendWriteAccessError)] *)
Definition mock_write_access_exception (e : error) : bool :=
  match e with
  | MockBackendError _ | BackendWriteAccessError _ => true
  | _ => false
  end.

(** Modelled from the spec: [Backend.__contains__], which [MockBackend]
    inherits from a base class that is not among the sources.  The spec has
    [contains(identity) -> bool] with exact canonical-string equality
    against the identities in the store. *)
Definition mock_contains (identity : string) (st : MockStore) : bool :=
  bool_decide (identity ∈ test_data_uris st).

Definition MockBackend : Backend MockStore := {|
  contains := mock_contains;
  create := mock_create;
  read := mock_read;
  update := mock_update;
  delete := mock_delete;
  search := mock_search;
  write_access_exception := mock_write_access_exception
|}.
End Mock.

(** ** Fixtures *)

(** Modelled from the spec: [derive_identity], the [get_uri] of the service,
    which is not among the sources: the pre-composed [uri] field if the
    document has one, else [namespace], with trailing slashes stripped,
    [version] and [name] joined by slashes.  Fields are taken to be strings. *)
Definition field_str (v : option value) : string :=
  match v with Some (VStr s) => s | _ => "None" end.

Definition derive_identity (entity : document) : string :=
  match dict_get "uri" entity with
  | Some (VStr uri) => uri
  | _ =>
      rstrip_slash (field_str (dict_get "namespace" entity)) +:+ "/" +:+
      field_str (dict_get "version" entity) +:+ "/" +:+
      field_str (dict_get "name" entity)
  end.

(** [str] on the strings and [None] that the fixtures use. *)
Definition fixture_str (v : value) : string := field_str (Some v).

(** The mock backend over [derive_identity], with entities stored as they are
    given. *)
Definition backend : Backend MockStore := MockBackend derive_identity id.

Definition Box : document :=
  [("uri", VStr "http://x.org/0.1/Box");
   ("properties", VDict [("length", VDict [("type", VStr "float")])]);
   ("dimensions", VDict [])].

Definition Ball : document :=
  [("namespace", VStr "http://x.org/"); ("version", VStr "0.1"); ("name", VStr "Ball");
   ("properties", VList [VDict [("name", VStr "radius"); ("type", VStr "float")]]);
   ("dimensions", VList [VDict [("name", VStr "n")]])].

(** A patch that says nothing about the identity, and one that names the
    namespace of another. *)
Definition describe : document := [("description", VStr "A solid.")].

Definition elsewhere : document :=
  [("namespace", VStr "http://y.org/"); ("version", VStr "0.1"); ("name", VStr "Cone")].

Definition Cone : document :=
  [("uri", VStr "http://x.org/0.1/Cone");
   ("properties", VDict [("height", VDict [])]);
   ("dimensions", VDict [])].

(** A store holding [Box] and [Ball]. *)
Definition store0 : MockStore :=
  mkMockStore [Box; Ball] [derive_identity Box; derive_identity Ball].

(** Running a route on a store, with no backend call made yet. *)
Definition run_on {A} (st : MockStore) (m : M MockStore A)
  : result exn A * (MockStore * list call) := m (st, []).

(** ** Vocabulary of the specification *)

(** The identities supplied to a bulk delete, in its body or its query. *)
Definition supplied (identities_body : option (one_or_many string))
    (identities_query : option (list string)) (identity : string) : Prop :=
  match identities_body with
  | Some (Single x) => identity = x
  | Some (Many l) => identity ∈ l
  | None => False
  end ∨
  match identities_query with
  | Some l => identity ∈ l
  | None => False
  end.

(** The element of a list of properties (dimensions) with the name
    [requested]: a dict whose [name] is this string. *)
Definition named (requested : string) (v : value) : Prop :=
  match v with
  | VDict prop =>
      match dict_get "name" prop with
      | Some (VStr n) => n = requested
      | _ => False
      end
  | _ => False
  end.

(** A document possesses one of the requested names in a field: the name is
    a key of the field, where the field is a dict, or the name of an element
    of the field, where the field is a list.  This says what a filter is to
    select, in the words of the specification; the test that [search] runs
    is [field_matches]. *)
Definition possesses (field : string) (by_names : list string) (entity : document)
  : Prop :=
  Exists (fun requested =>
            match dict_get field entity with
            | Some (VDict d) => is_Some (dict_get requested d)
            | Some (VList l) => Exists (named requested) l
            | _ => False
            end) by_names.

#[global] Instance named_dec (requested : string) (v : value) :
  Decision (named requested v).
Proof. unfold named. repeat case_match; apply _. Defined.

#[global] Instance possesses_dec (field : string) (by_names : list string)
    (entity : document) : Decision (possesses field by_names entity).
Proof. unfold possesses. apply Exists_dec. intros r. repeat case_match; apply _. Defined.




(** Stores on which [search] raises nothing: the two lists are as long as
    each other and every document has both fields in one of the two dialects. *)
Definition is_dict (v : value) : Prop :=
  match v with VDict _ => True | _ => False end.

Definition dialect (field : string) (entity : document) : Prop :=
  match dict_get field entity with
  | Some (VDict _) => True
  | Some (VList l) => Forall is_dict l
  | _ => False
  end.

Definition wf_store (st : MockStore) : Prop :=
  length (test_data st) = length (test_data_uris st) ∧
  Forall (fun entity => dialect "properties" entity ∧ dialect "dimensions" entity)
         (test_data st).

(** ** The identity grammar, in words

    What each construct of [re] matches, as the documentation of Python's
    [re] states it, and the three components of an identity, character by
    character.  The matcher is compared with these below. *)

(** The text [t] is the one character of code point [c]. *)
Definition char (t : list ascii) (c : N) : Prop := next_char t = Some (c, []).

(** A run of one or more characters, each of which satisfies [p]. *)
Definition chars (p : N → Prop) (l : list ascii) : Prop :=
  ∃ ts : list (list ascii),
    ts ≠ [] ∧ l = concat ts ∧ Forall (fun t => ∃ c, char t c ∧ p c) ts.

(** The text that an expression can consume.  [$] consumes nothing; where it
    may stand is a matter of what follows, not of the text consumed. *)
Inductive matches : re → list ascii → Prop :=
| MLit s : matches (Lit s) (list_ascii_of_string s)
| MDot t c : char t c → c ≠ code newline → matches Dot t
| MDigit t c : char t c → is_digit c = true → matches Digit t
| MNoneOf cs t c : char t c → c ∉ map code cs → matches (NoneOf cs) t
| MCat r1 r2 p1 p2 :
    matches r1 p1 → matches r2 p2 → matches (Cat r1 r2) (p1 ++ p2)
| MOptNone r : matches (Opt r) []
| MOptSome r p : matches r p → matches (Opt r) p
| MPlusOne r p : matches r p → matches (Plus r) p
| MPlusMore r p1 p2 :
    matches r p1 → p1 ≠ [] → matches (Plus r) p2 → matches (Plus r) (p1 ++ p2)
| MUptoNone n r : matches (Upto n r) []
| MUptoMore n r p1 p2 :
    matches r p1 → matches (Upto n r) p2 → matches (Upto (Datatypes.S n) r) (p1 ++ p2)
| MGroup nm r p : matches r p → matches (Group nm r) p
| MEos : matches Eos [].

Fixpoint eos_free (r : re) : bool :=
  match r with
  | Cat r1 r2 => eos_free r1 && eos_free r2
  | Opt r1 | Plus r1 | Upto _ r1 | Group _ r1 => eos_free r1
  | Eos => false
  | _ => true
  end.

(** The three groups of [URI_REGEX]. *)
Definition namespace_re : re :=
  Cat (Lit "http") (Cat (Opt (Lit "s")) (Cat (Lit "://") (Plus Dot))).

Definition version_re : re :=
  Cat Digit (Upto 2 (Cat (Lit ".") (Plus Digit))).

Definition name_re : re := Plus (NoneOf ["/"; "#"; "?"]%char).

(** A namespace: [http://] or [https://], then at least one character, none
    of them a newline. *)
Definition wf_namespace (ns : string) : Prop :=
  ∃ rest : list ascii,
    chars (fun c => c ≠ code newline) rest ∧
    (list_ascii_of_string ns = list_ascii_of_string "http://" ++ rest ∨
     list_ascii_of_string ns = list_ascii_of_string "https://" ++ rest).

(** One decimal digit, and a run of one or more of them. *)
Definition digit (d : list ascii) : Prop := ∃ c, char d c ∧ is_digit c = true.

Definition digits (g : list ascii) : Prop := chars (fun c => is_digit c = true) g.

(** A version: one digit, then at most two groups of a dot and digits. *)
Definition wf_version (v : string) : Prop :=
  ∃ (d : list ascii) (groups : list (list ascii)),
    digit d ∧ (length groups ≤ 2)%nat ∧ Forall digits groups ∧
    list_ascii_of_string v = d ++ concat (map (fun g => "."%char :: g) groups).

(** A name: at least one character, none of them [/], [#] or [?]. *)
Definition wf_name (n : string) : Prop :=
  chars (fun c => c ∉ map code ["/"; "#"; "?"]%char) (list_ascii_of_string n).

Definition wf_identity (i : Identity) : Prop :=
  wf_namespace (namespace i) ∧ wf_version (version i) ∧ wf_name (name i).

(** The character [/] does not occur in a string. *)
Definition slash_free (s : string) : Prop :=
  "/"%char ∉ list_ascii_of_string s.

(** ** More of the mock backend *)

(** [__len__] *)
Definition mock_len (st : MockStore) : nat := length (test_data st).

(** [count]: raw queries are refused. *)
Definition mock_count (raw_query : option value) (st : MockStore) : result error nat :=
  match raw_query with
  | Some _ => Raise (MockBackendError "Raw queries are not supported by MockBackend.")
  | None => Ok (length (test_data st))
  end.

(** The two lists of the store are as long as each other. *)
Definition synced (st : MockStore) : Prop :=
  length (test_data st) = length (test_data_uris st).

(** The field is there and is a dict or a list. *)
Definition shaped (field : string) (entity : document) : Prop :=
  match dict_get field entity with
  | Some (VDict _) | Some (VList _) => True
  | _ => False
  end.

(** What [read] found, if anything. *)
Definition found (st : MockStore) (identity : string) : option document :=
  match mock_read identity st with
  | Ok entity => entity
  | Raise _ => None
  end.

(** A store that holds [Box] and a document under a malformed identity. *)
Definition Broken : document := [("uri", VStr "urn:broken")].

Definition store1 : MockStore :=
  mkMockStore [Box; Broken] [derive_identity Box; derive_identity Broken].

(** A second description of the entity stored as [Box]. *)
Definition Box2 : document :=
  [("uri", VStr "http://x.org/0.1/Box"); ("description", VStr "A box.")].

(** The store is as a backend built over its documents has it. *)
Definition built (get_uri : document → string) (st : MockStore) : Prop :=
  st = mock_init get_uri (test_data st).

(** A store that holds [Box], [Ball] and [Cone]. *)
Definition store2 : MockStore := mock_init derive_identity [Box; Ball; Cone].

(** A patch of [Box] that carries its identity. *)
Definition describe_box : document :=
  [("uri", VStr "http://x.org/0.1/Box"); ("description", VStr "A solid.")].
(** ** Facts about the matcher *)

Module RegexFacts.

Lemma strip_prefix_app p : ∀ inp rest,
  strip_prefix p inp = Some rest → inp = p ++ rest.
Proof.
  induction p as [|a p IH]; intros inp rest H.
  { destruct inp; simpl in *; congruence. }
  destruct inp as [|c inp]; simpl in H; [discriminate|].
  destruct (Ascii.eqb a c) eqn:E; [|discriminate].
  apply Ascii.eqb_eq in E as ->. simpl. f_equal. by apply IH.
Qed.

Lemma orelse_Some a b res :
  orelse a b = Some res → a = Some res ∨ (a = None ∧ b = Some res).
Proof. destruct a; simpl; intros; [left | right]; auto. Qed.

Section loops.
Variable step : list ascii → captures → cont → option captures.
Variable G : Prop.
Hypothesis step_sound : ∀ inp env k res,
  step inp env k = Some res →
  ∃ pre rest env', inp = pre ++ rest ∧ k rest env' = Some res ∧ (G → env' = env).

Lemma plus_loop_sound fuel : ∀ inp env k res,
  plus_loop step fuel inp env k = Some res →
  ∃ pre rest env', inp = pre ++ rest ∧ k rest env' = Some res ∧ (G → env' = env).
Proof.
  induction fuel as [|fuel IH]; intros inp env k res H; [discriminate|].
  simpl in H. apply step_sound in H as (pre & rest & env1 & -> & H & He).
  apply orelse_Some in H as [H | [_ H]].
  - case_decide; [|discriminate].
    apply IH in H as (pre2 & rest2 & env2 & -> & H & He2).
    exists (pre ++ pre2), rest2, env2. rewrite <- app_assoc.
    split_and!; auto. intros g. rewrite He2, He; auto.
  - exists pre, rest, env1. auto.
Qed.

Lemma upto_loop_sound n : ∀ inp env k res,
  upto_loop step n inp env k = Some res →
  ∃ pre rest env', inp = pre ++ rest ∧ k rest env' = Some res ∧ (G → env' = env).
Proof.
  induction n as [|n IH]; intros inp env k res H; simpl in H.
  - exists [], inp, env. auto.
  - apply orelse_Some in H as [H | [_ H]].
    + apply step_sound in H as (pre & rest & env1 & -> & H & He).
      apply IH in H as (pre2 & rest2 & env2 & -> & H & He2).
      exists (pre ++ pre2), rest2, env2. rewrite <- app_assoc.
      split_and!; auto. intros g. rewrite He2, He; auto.
    + exists [], inp, env. auto.
Qed.
End loops.

(** A character is a non-empty prefix of the input, and is read off its own
    bytes alone. *)
Lemma next_char_split inp c rest :
  next_char inp = Some (c, rest) →
  ∃ pre, inp = pre ++ rest ∧ pre ≠ [] ∧ next_char pre = Some (c, []).
Proof.
  unfold next_char. intros H.
  repeat case_match; simplify_eq;
    first [ eexists [_]; split_and!; [reflexivity|done|]
          | eexists [_; _]; split_and!; [reflexivity|done|]
          | eexists [_; _; _]; split_and!; [reflexivity|done|]
          | eexists [_; _; _; _]; split_and!; [reflexivity|done|] ];
    repeat match goal with E : ?x = _ |- context [?x] => rewrite E end; done.
Qed.

Lemma next_char_app pre c rest :
  next_char pre = Some (c, []) → next_char (pre ++ rest) = Some (c, rest).
Proof.
  intros H. destruct pre as [|b0 pre]; [done|]. simpl in *.
  destruct (code b0 <? 128)%N; [by simplify_eq|].
  destruct (code b0 <? 192)%N; [done|].
  destruct (code b0 <? 224)%N.
  { destruct pre as [|b1 pre]; [done|]. simpl.
    destruct (continuation b1); [|done].
    destruct (128 <=? _)%N; by simplify_eq. }
  destruct (code b0 <? 240)%N.
  { destruct pre as [|b1 [|b2 pre]]; [done..|]. simpl.
    destruct (continuation b1); [|done]. destruct (continuation b2); [|done].
    destruct (_ && _); by simplify_eq. }
  destruct (code b0 <? 248)%N; [|done].
  destruct pre as [|b1 [|b2 [|b3 pre]]]; [done..|]. simpl.
  destruct (continuation b1); [|done]. destruct (continuation b2); [|done].
  destruct (continuation b3); [|done].
  destruct (_ && _); by simplify_eq.
Qed.

Lemma next_char_shorter inp c rest :
  next_char inp = Some (c, rest) → length rest < length inp.
Proof.
  intros (pre & -> & Hne & _)%next_char_split. rewrite length_app.
  destruct pre; [done|]. simpl. lia.
Qed.

Lemma one_sound p inp env k res :
  one p inp env k = Some res →
  ∃ c rest, next_char inp = Some (c, rest) ∧ p c = true ∧ k rest env = Some res.
Proof.
  unfold one. destruct (next_char inp) as [[c rest]|]; [|discriminate].
  destruct (p c) eqn:E; [|discriminate]. eauto.
Qed.

Lemma one_split p inp env k res :
  one p inp env k = Some res →
  ∃ pre rest, inp = pre ++ rest ∧ k rest env = Some res.
Proof.
  intros (c & rest & (pre & -> & _)%next_char_split & _ & H)%one_sound. eauto.
Qed.

(** Every successful run splits the input into what the expression consumed
    and what its continuation was given. *)
Lemma run_sound r : ∀ inp env k res,
  run r inp env k = Some res →
  ∃ pre rest env',
    inp = pre ++ rest ∧ k rest env' = Some res ∧ (nogroups r = true → env' = env).
Proof.
  induction r as [s| | |cs|r1 IH1 r2 IH2|r1 IH1|r1 IH1|n r1 IH1|nm r1 IH1|];
    intros inp env k res H; simpl in H.
  - destruct (strip_prefix _ inp) as [rest|] eqn:E; [|discriminate].
    apply strip_prefix_app in E. eauto 6.
  - apply one_split in H as (pre & rest & -> & H). exists pre, rest, env. auto.
  - apply one_split in H as (pre & rest & -> & H). exists pre, rest, env. auto.
  - apply one_split in H as (pre & rest & -> & H). exists pre, rest, env. auto.
  - apply IH1 in H as (pre & rest & env1 & -> & H & He).
    apply IH2 in H as (pre2 & rest2 & env2 & -> & H & He2).
    exists (pre ++ pre2), rest2, env2. rewrite <- app_assoc.
    split_and!; auto. simpl. intros [g1 g2]%andb_true_iff. rewrite He2, He; auto.
  - apply orelse_Some in H as [H | [_ H]]; [by apply IH1 in H|].
    exists [], inp, env. auto.
  - change (plus_loop (run r1) (S (length inp)) inp env k = Some res) in H.
    eapply plus_loop_sound; [|exact H]. intros. by apply IH1.
  - change (upto_loop (run r1) n inp env k = Some res) in H.
    eapply upto_loop_sound; [|exact H]. intros. by apply IH1.
  - apply IH1 in H as (pre & rest & env1 & -> & H & He).
    exists pre, rest, (env1 ++ [(nm, take (length (pre ++ rest) - length rest) (pre ++ rest))]).
    split_and!; auto. discriminate.
  - destruct (at_end inp); [|discriminate]. exists [], inp, env. auto.
Qed.

Lemma run_Lit s inp env k res :
  run (Lit s) inp env k = Some res →
  ∃ rest, inp = list_ascii_of_string s ++ rest ∧ k rest env = Some res.
Proof.
  simpl. destruct (strip_prefix _ inp) as [rest|] eqn:E; [|discriminate].
  apply strip_prefix_app in E. eauto.
Qed.

Lemma take_consumed {A} (pre rest : list A) :
  take (length (pre ++ rest) - length rest) (pre ++ rest) = pre.
Proof.
  rewrite length_app.
  replace (length pre + length rest - length rest) with (length pre) by lia.
  by rewrite take_app_length.
Qed.

(** A group without inner groups records exactly what it consumed. *)
Lemma run_Group nm r inp env k res :
  nogroups r = true →
  run (Group nm r) inp env k = Some res →
  ∃ pre rest, inp = pre ++ rest ∧ k rest (env ++ [(nm, pre)]) = Some res.
Proof.
  intros Hg H. simpl in H.
  apply run_sound in H as (pre & rest & env1 & -> & H & He).
  rewrite take_consumed, (He Hg) in H. eauto.
Qed.

(** Greediness of [[...]+] over a character class: the continuation failed on
    the longer candidate, whenever there was one. *)
Lemma plus_one_None p fuel inp c rest env k :
  plus_loop (one p) (S fuel) inp env k = None →
  next_char inp = Some (c, rest) → p c = true → k rest env = None.
Proof.
  intros H Hn Hc. cbn [plus_loop] in H. unfold one at 1 in H. rewrite Hn, Hc in H.
  unfold orelse in H. destruct (if decide _ then _ else _); [discriminate|].
  exact H.
Qed.

Lemma plus_one_greedy p fuel : ∀ inp env k res,
  length inp < fuel →
  plus_loop (one p) fuel inp env k = Some res →
  ∃ pre rest,
    inp = pre ++ rest ∧ k rest env = Some res ∧
    ∀ c rest', next_char rest = Some (c, rest') → p c = true → k rest' env = None.
Proof.
  induction fuel as [|fuel IH]; intros inp env k res Hlen H; [lia|].
  simpl in H. apply one_sound in H as (c & rest & Hn & Hc & H).
  pose proof (next_char_shorter _ _ _ Hn) as Hs.
  apply next_char_split in Hn as (t & -> & _ & _).
  rewrite decide_True in H by done.
  apply orelse_Some in H as [H | [Hn H]].
  - apply IH in H as (pre & rest2 & -> & H & Hg); [|lia].
    exists (t ++ pre), rest2. rewrite <- app_assoc. auto.
  - exists t, rest. split_and!; auto.
    intros c2 rest2 Hn2 Hc2. destruct fuel as [|fuel]; [lia|].
    by eapply plus_one_None.
Qed.

(** The matcher uses its continuation only through its results, and the
    bound of [plus_loop] is no restriction: any bound above the length of the
    input gives the same result. *)
Section fuel.
Variable step : list ascii → captures → cont → option captures.
Hypothesis step_ext : ∀ inp env k1 k2,
  (∀ rest env', k1 rest env' = k2 rest env') → step inp env k1 = step inp env k2.

Lemma plus_loop_ext fuel : ∀ inp env k1 k2,
  (∀ rest env', k1 rest env' = k2 rest env') →
  plus_loop step fuel inp env k1 = plus_loop step fuel inp env k2.
Proof.
  induction fuel as [|fuel IH]; intros inp env k1 k2 Hk; simpl; [done|].
  apply step_ext. intros rest env'. rewrite (Hk rest env').
  case_decide; [|done]. by rewrite (IH rest env' k1 k2).
Qed.

Lemma upto_loop_ext n : ∀ inp env k1 k2,
  (∀ rest env', k1 rest env' = k2 rest env') →
  upto_loop step n inp env k1 = upto_loop step n inp env k2.
Proof.
  induction n as [|n IH]; intros inp env k1 k2 Hk; simpl; [done|].
  rewrite (Hk inp env). f_equal. apply step_ext. intros rest env'. by apply IH.
Qed.

Lemma plus_loop_fuel fuel1 : ∀ fuel2 inp env k,
  length inp < fuel1 → length inp < fuel2 →
  plus_loop step fuel1 inp env k = plus_loop step fuel2 inp env k.
Proof.
  induction fuel1 as [|fuel1 IH]; intros [|fuel2] inp env k H1 H2; try lia.
  simpl. apply step_ext. intros rest env'.
  case_decide; [|done]. f_equal. apply IH; lia.
Qed.
End fuel.

Lemma run_ext r : ∀ inp env k1 k2,
  (∀ rest env', k1 rest env' = k2 rest env') → run r inp env k1 = run r inp env k2.
Proof.
  induction r as [s| | |cs|r1 IH1 r2 IH2|r1 IH1|r1 IH1|n r1 IH1|nm r1 IH1|];
    intros inp env k1 k2 Hk; cbn [run].
  - destruct (strip_prefix _ inp); [apply Hk|done].
  - unfold one. destruct (next_char inp) as [[c rest]|]; [|done]. by rewrite Hk.
  - unfold one. destruct (next_char inp) as [[c rest]|]; [|done]. by rewrite Hk.
  - unfold one. destruct (next_char inp) as [[c rest]|]; [|done]. by rewrite Hk.
  - apply IH1. intros rest env'. by apply IH2.
  - by rewrite (IH1 inp env k1 k2 Hk), (Hk inp env).
  - by apply plus_loop_ext.
  - by apply upto_loop_ext.
  - apply IH1. intros rest env'. apply Hk.
  - destruct (at_end inp); [apply Hk|done].
Qed.

Lemma run_Plus_fuel r fuel inp env k :
  length inp < fuel →
  run (Plus r) inp env k = plus_loop (run r) fuel inp env k.
Proof. intros H. cbn [run]. apply plus_loop_fuel; [apply run_ext|lia|done]. Qed.

Lemma string_of_list_ascii_app l1 l2 :
  string_of_list_ascii (l1 ++ l2) = string_of_list_ascii l1 +:+ string_of_list_ascii l2.
Proof. induction l1 as [|c l1 IH]; simpl; [done|]. by rewrite IH. Qed.

(** The shape of every match of [URI_REGEX]: the three groups, separated by
    slashes, make up the whole input. *)
Lemma uri_match_shape s env :
  re_match URI_REGEX s = Some env →
  ∃ ns v n,
    list_ascii_of_string s = ns ++ "/"%char :: v ++ "/"%char :: n ∧
    env = [("namespace", ns); ("version", v); ("name", n)].
Proof.
  unfold re_match, URI_REGEX. generalize (list_ascii_of_string s) as inp.
  intros inp H.
  change (run (Cat ?a ?b) ?i ?e ?k) with (run a i e (fun r e' => run b r e' k)) in H.
  apply run_Group in H as (ns & r1 & -> & H); [|reflexivity].
  change (run (Cat ?a ?b) ?i ?e ?k) with (run a i e (fun r e' => run b r e' k)) in H.
  apply run_Lit in H as (r2 & -> & H).
  change (run (Cat ?a ?b) ?i ?e ?k) with (run a i e (fun r e' => run b r e' k)) in H.
  apply run_Group in H as (v & r3 & -> & H); [|reflexivity].
  change (run (Cat ?a ?b) ?i ?e ?k) with (run a i e (fun r e' => run b r e' k)) in H.
  apply run_Lit in H as (r4 & -> & H).
  change (run (Cat ?a ?b) ?i ?e ?k) with (run a i e (fun r e' => run b r e' k)) in H.
  change (run (Group ?nm (Plus (NoneOf ?cs))) ?i ?e ?k)
    with (plus_loop (one (none_of cs)) (S (length i)) i e
            (fun r e' => k r (e' ++ [(nm, take (length i - length r) i)]))) in H.
  apply plus_one_greedy in H as (n & r5 & -> & H & Hg); [|lia].
  rewrite take_consumed in H. simpl in H.
  exists ns, v, n. destruct r5 as [|c [|c' r5]]; simpl in H; try discriminate.
  - rewrite app_nil_r. split; [done|]. by injection H as <-.
  - destruct (Ascii.eqb c newline) eqn:E; [|discriminate].
    apply Ascii.eqb_eq in E as ->.
    specialize (Hg (code newline) [] eq_refl eq_refl). discriminate.
Qed.

End RegexFacts.

(** C9: every string that [URI_REGEX] accepts is the composition
    [{namespace}/{version}/{name}] of the components it is parsed into. *)
Theorem parse_compose_roundtrip (s : string) (i : Identity) :
  parse s = Some i → compose i = s.
Proof.
  unfold parse. destruct (re_match URI_REGEX s) as [env|] eqn:E; [|discriminate].
  apply RegexFacts.uri_match_shape in E as (ns & v & n & Hs & ->).
  cbn [group]. rewrite !String.eqb_refl.
  change (String.eqb "namespace" "version") with false.
  change (String.eqb "namespace" "name") with false.
  change (String.eqb "version" "name") with false.
  change (String.eqb "version" "namespace") with false.
  cbn. intros [= <-]. unfold compose. cbn.
  rewrite <- (string_of_list_ascii_of_string s), Hs.
  rewrite RegexFacts.string_of_list_ascii_app. cbn.
  rewrite RegexFacts.string_of_list_ascii_app. reflexivity.
Qed.


Example parse_box :
  parse "http://x.org/0.1/Box" = Some (mkIdentity "http://x.org" "0.1" "Box").
Proof. vm_compute. reflexivity. Qed.

Example parse_greedy :
  parse "http://x.org/1/0.2/Name" = Some (mkIdentity "http://x.org/1" "0.2" "Name").
Proof. vm_compute. reflexivity. Qed.

Example parse_three_groups :
  parse "https://a.b/c/1.22.333/N-1" = Some (mkIdentity "https://a.b/c" "1.22.333" "N-1").
Proof. vm_compute. reflexivity. Qed.

Example parse_swapped : parse "http://x.org/Name/1.0" = None.
Proof. vm_compute. reflexivity. Qed.

Example parse_no_scheme : parse "x.org/1.0/Name" = None.
Proof. vm_compute. reflexivity. Qed.

Example parse_four_groups : parse "http://x.org/1.2.3.4/Name" = None.
Proof. vm_compute. reflexivity. Qed.

Example parse_fragment : parse "http://x.org/0.1/Box#top" = None.
Proof. vm_compute. reflexivity. Qed.

Example parse_unicode_digits :
  parse "http://x.org/٣.१२/Name" = Some (mkIdentity "http://x.org" "٣.१२" "Name").
Proof. vm_compute. reflexivity. Qed.

Example parse_superscript : parse "http://x.org/²/Name" = None.
Proof. vm_compute. reflexivity. Qed.

Example parse_final_newline :
  parse (String.append "http://x.org/0.1/Box" (String newline EmptyString))
  = Some (mkIdentity "http://x.org" "0.1" (String.append "Box" (String newline EmptyString))).
Proof. vm_compute. reflexivity. Qed.

(** ** The request monad *)

Section RouterFacts.
Context {S : Type} {B : Backend S}.
Lemma as_batch_Some {A} (entities : one_or_many A) (es : list A) :
as_batch entities = Some es → es ≠ [].
Proof. destruct entities as [x|[|x xs]]; simpl; intros [= <-]; done. Qed.

(** What [create_failed] says, in words: the value is absent, or a list when
  one entity was given, or no list when several were. *)
Lemma create_failed_spec (n : nat) (c : created) :
create_failed n c = true ↔
c = CreatedNone ∨ (n = 1 ∧ is_list c = true) ∨ (1 < n ∧ is_list c = false).
Proof.
unfold create_failed.
rewrite !orb_true_iff, !andb_true_iff, Nat.eqb_eq, Nat.ltb_lt, negb_true_iff.
destruct c; simpl; intuition congruence.
Qed.

Lemma create_ok_mirrors (n : nat) (c : created) :
0 < n → create_failed n c = false →
(n = 1 ∧ ∃ d, c = CreatedDict d) ∨ (1 < n ∧ ∃ l, c = CreatedList l).
Proof.
unfold create_failed.
rewrite !orb_false_iff, !andb_false_iff, Nat.eqb_neq, Nat.ltb_nlt, negb_false_iff.
destruct c; simpl; intros Hn [[H1 H2] H3]; try discriminate.
- left. split; [destruct H3; [lia|discriminate]|eauto].
- right. split; [destruct H2; [lia|discriminate]|eauto].
Qed.

(** What [GET /entities/] returns is what the search found, and is not empty. *)
Lemma get_entities_Ok
  (identities properties dimensions : option (list string))
  (st : S) (log : list call) (r : response (list document)) (w : S * list call) :
get_entities identities properties dimensions (st, log) = (Ok r, w) →
body r ≠ [] ∧ search properties dimensions identities st = Ok (body r).
Proof.
unfold get_entities, bind, query, raise, ret. simpl.
destruct (search _ _ _ st) as [[|d l]|e]; simpl; intros [= <- <-]; done.
Qed.

(** C10: [GET /entities/] never returns an empty list: when the search finds
  nothing, with or without filters, the route raises 404 Not Found. *)
Theorem get_entities_never_empty
  (identities properties dimensions : option (list string))
  (st : S) (log : list call) :
(search properties dimensions identities st = Ok [] →
 get_entities identities properties dimensions (st, log)
 = (Raise (HTTPException HTTP_404_NOT_FOUND),
    (st, log ++ [CallSearch properties dimensions identities]))) ∧
(∀ r w, get_entities identities properties dimensions (st, log) = (Ok r, w) →
        body r ≠ []).
Proof.
split.
- unfold get_entities, bind, query, raise, ret. simpl. intros ->. reflexivity.
- intros r w H. by apply get_entities_Ok in H as [? _].
Qed.

(** C4: for a non-empty batch, [POST /entities/] raises the one 502 write
  failure when the value returned by [create] is absent, a list for one
  entity, or no list for several; otherwise it returns that value, which
  mirrors the arity of the batch. *)
Theorem create_entities_arity
  (entities : one_or_many document) (es : list document)
  (st st' : S) (log : list call) (c : created) :
as_batch entities = Some es →
create es st = (Ok c, st') →
(c = CreatedNone ∨ (length es = 1 ∧ is_list c = true)
                 ∨ (1 < length es ∧ is_list c = false) →
 create_entities entities (st, log)
 = (Raise (HTTPException HTTP_502_BAD_GATEWAY), (st', log ++ [CallCreate es]))) ∧
(¬ (c = CreatedNone ∨ (length es = 1 ∧ is_list c = true)
                    ∨ (1 < length es ∧ is_list c = false)) →
 create_entities entities (st, log)
 = (Ok (mkResponse HTTP_201_CREATED c), (st', log ++ [CallCreate es])) ∧
 ((length es = 1 ∧ ∃ d, c = CreatedDict d) ∨
  (1 < length es ∧ ∃ l, c = CreatedList l))).
Proof.
intros Hb Hc. unfold create_entities. rewrite Hb.
unfold bind, try_except, invoke, raise, ret. simpl. rewrite Hc. simpl.
rewrite <- create_failed_spec.
destruct (create_failed (length es) c) eqn:E; split; try done.
intros _. split; [done|]. apply create_ok_mirrors; [|done].
apply as_batch_Some in Hb. destruct es; simpl; [done|lia].
Qed.

Variable get_uri : document → string.
Variable py_str : value → string.

(** The membership tests of a comprehension over [get_uri(entity) not in
  entities_backend] leave the store alone and select the entities that
  are not in it. *)
Lemma comprehension_not_in (entities : list document) (st : S) (log : list call) :
comprehension entities
  (fun entity => let! b := in_backend (get_uri entity) in ret (negb b)) (st, log)
= (Ok (filter (fun entity => contains (get_uri entity) st = false) entities),
   (st, log ++ map (fun entity => CallContains (get_uri entity)) entities)).
Proof.
revert log. induction entities as [|e es IH]; intros log; simpl.
- by rewrite app_nil_r.
- unfold bind at 1. unfold bind at 1. unfold in_backend, query, ret. simpl.
  unfold bind at 1. rewrite IH. simpl. rewrite <- app_assoc. simpl.
  rewrite filter_cons. case_decide as Hc.
  + rewrite Hc. done.
  + apply not_false_is_true in Hc. rewrite Hc. done.
Qed.

Lemma filter_not_in_nil (entities : list document) (st : S) :
filter (fun entity => contains (get_uri entity) st = false) entities = [] ↔
∀ entity, entity ∈ entities → contains (get_uri entity) st = true.
Proof.
split.
- intros H e He. destruct (contains (get_uri e) st) eqn:E; [done|].
  by destruct (filter_nil_not_elem_of _ _ e H E).
- intros H. destruct (filter _ entities) as [|x xs] eqn:E; [done|].
  assert (Hx : x ∈ filter (fun entity => contains (get_uri entity) st = false) entities)
    by (rewrite E; left).
  apply list_elem_of_filter in Hx as [Hx1 Hx2]. rewrite (H x Hx2) in Hx1. done.
Qed.

Lemma no_update_in_contains (entities : list document) :
Forall (fun c => is_update c = false)
  (map (fun entity => CallContains (get_uri entity)) entities).
Proof. apply Forall_forall. intros c (e & -> & _)%list_elem_of_fmap. done. Qed.

(** C7: [PUT /entities/{identity}] with an identity other than the one of the
  body raises 400 Bad Request with no backend call made and the store as it
  was; with the same identity it raises no 400. *)
Theorem update_entity_identity_check
  (identity : string) (entity : document) (st : S) (log : list call) :
(identity ≠ get_uri entity →
 update_entity get_uri identity entity (st, log)
 = (Raise (HTTPException HTTP_400_BAD_REQUEST), (st, log))) ∧
(identity = get_uri entity →
 fst (update_entity get_uri identity entity (st, log))
 ≠ Raise (HTTPException HTTP_400_BAD_REQUEST)).
Proof.
unfold update_entity. split; intros H.
- apply String.eqb_neq in H. rewrite H. reflexivity.
- apply String.eqb_eq in H. rewrite H. simpl.
  unfold bind, in_backend, query, try_except, invoke, raise, ret. simpl.
  destruct (contains identity st); simpl.
  + destruct (update identity entity st) as [[[]|e] s]; simpl; [done|].
    destruct (write_access_exception e); simpl; done.
  + destruct (create [entity] st) as [[c|e] s]; simpl; [done|].
    destruct (write_access_exception e); simpl; done.
Qed.

(** C5: a patch batch with an entity whose identity is not in the store is
  rejected after the membership tests alone: no [update] call is made and
  the store is as it was. *)
Theorem patch_entities_preflight
  (entities : one_or_many document) (es : list document) (missing : document)
  (st : S) (log : list call) :
as_batch entities = Some es →
missing ∈ es →
contains (get_uri missing) st = false →
patch_entities get_uri entities (st, log)
= (Raise (HTTPException HTTP_502_BAD_GATEWAY),
   (st, log ++ map (fun entity => CallContains (get_uri entity)) es)) ∧
Forall (fun c => is_update c = false)
  (map (fun entity => CallContains (get_uri entity)) es).
Proof.
intros Hb Hin Hm. split; [|apply no_update_in_contains].
unfold patch_entities. rewrite Hb. unfold bind at 1.
rewrite comprehension_not_in.
destruct (filter _ es) as [|x xs] eqn:E; [|reflexivity].
pose proof (proj1 (filter_not_in_nil es st) E missing Hin). congruence.
Qed.

(** C1: the code does not do what the claim says.  Every entity of the batch
  being in the store, [PUT /entities/] reads the local [created_entities]
  before anything was assigned to it: it raises [UnboundLocalError] after
  the membership tests, updates nothing and does not get to its 204 No
  Content. *)
Theorem update_entities_all_existing
  (entities : one_or_many document) (es : list document)
  (st : S) (log : list call) :
as_batch entities = Some es →
(∀ entity, entity ∈ es → contains (get_uri entity) st = true) →
update_entities get_uri entities (st, log)
= (Raise (Error (UnboundLocalError "created_entities")),
   (st, log ++ map (fun entity => CallContains (get_uri entity)) es)).
Proof.
intros Hb Hall. unfold update_entities. rewrite Hb. unfold bind at 1.
rewrite comprehension_not_in.
rewrite (proj2 (filter_not_in_nil es st) Hall). reflexivity.
Qed.

(** A body with no [uri] other than the identity and with no [namespace]
  passes the identity check of [PATCH /entities/{identity}]. *)
Lemma patch_mismatch_pass (identity : string) (entity : document) :
dict_get "uri" entity = None ∨ dict_get "uri" entity = Some (VStr identity) →
dict_get "namespace" entity = None →
patch_mismatch py_str identity entity = Ok (false, None).
Proof.
intros Hu Hn. unfold patch_mismatch. rewrite Hn.
destruct Hu as [->| ->]; [done|]. simpl. by rewrite String.eqb_refl.
Qed.

(** [PATCH /entities/{identity}] of an identity that is not in the store,
  with a body that passes the identity check, raises 404 Not Found after
  the membership test, with no [update] call made and the store as it
  was. *)
Lemma patch_entity_not_found
  (identity : string) (entity : document) (uri : option string)
  (st : S) (log : list call) :
patch_mismatch py_str identity entity = Ok (false, uri) →
contains identity st = false →
patch_entity py_str identity entity (st, log)
= (Raise (HTTPException HTTP_404_NOT_FOUND), (st, log ++ [CallContains identity])).
Proof.
intros Hm Hc. unfold patch_entity. rewrite Hm.
unfold bind, in_backend, query, raise. simpl. rewrite Hc. reflexivity.
Qed.

(** C2: the code does not do what the claim says for the batch patch.  For
  an identity that is not in the store, [PATCH /entities/] raises its write
  failure, 502 Bad Gateway, after the membership tests, where
  [PATCH /entities/{identity}], given a body that passes its identity
  check, raises the lookup failure, 404 Not Found.  Neither of the two
  calls [update], and the store is as it was. *)
Theorem patch_missing_identity
  (entities : one_or_many document) (es : list document)
  (missing entity : document) (uri : option string)
  (st : S) (log : list call) :
as_batch entities = Some es →
missing ∈ es →
contains (get_uri missing) st = false →
patch_mismatch py_str (get_uri missing) entity = Ok (false, uri) →
patch_entities get_uri entities (st, log)
= (Raise (HTTPException HTTP_502_BAD_GATEWAY),
   (st, log ++ map (fun entity => CallContains (get_uri entity)) es)) ∧
patch_entity py_str (get_uri missing) entity (st, log)
= (Raise (HTTPException HTTP_404_NOT_FOUND),
   (st, log ++ [CallContains (get_uri missing)])).
Proof.
intros Hb Hin Hc Hm. split; [|by eapply patch_entity_not_found].
unfold patch_entities. rewrite Hb. unfold bind at 1.
rewrite comprehension_not_in.
destruct (filter _ es) as [|x xs] eqn:E; [|reflexivity].
pose proof (proj1 (filter_not_in_nil es st) E missing Hin). congruence.
Qed.

(** [DELETE /entities/{identity}] of an identity that is not in the store
  raises 404 Not Found and does not call [delete]. *)
Lemma delete_entity_not_found (identity : string) (st : S) (log : list call) :
contains identity st = false →
delete_entity identity (st, log)
= (Raise (HTTPException HTTP_404_NOT_FOUND), (st, log ++ [CallContains identity])).
Proof.
intros Hc. unfold delete_entity, bind, in_backend, query, raise. simpl.
rewrite Hc. reflexivity.
Qed.

End RouterFacts.

(** ** The order of [sorted] *)

Lemma leb_trans (s1 : string) : ∀ s2 s3,
  String.leb s1 s2 = true → String.leb s2 s3 = true → String.leb s1 s3 = true.
Proof.
  unfold String.leb.
  induction s1 as [|c1 s1 IH]; intros [|c2 s2] [|c3 s3]; simpl; try done.
  unfold Ascii.compare.
  destruct (N.compare_spec (N_of_ascii c1) (N_of_ascii c2));
    destruct (N.compare_spec (N_of_ascii c2) (N_of_ascii c3));
    destruct (N.compare_spec (N_of_ascii c1) (N_of_ascii c3));
    try done; try lia.
  apply IH.
Qed.

Global Instance str_le_total : Total str_le.
Proof. intros s1 s2. apply String.leb_total. Qed.

Global Instance str_le_trans : Transitive str_le.
Proof. intros s1 s2 s3. apply leb_trans. Qed.

Global Instance str_le_antisymm : AntiSymm (=) str_le.
Proof. intros s1 s2. apply String.leb_antisym. Qed.

Lemma sorted_spec (identities : gset string) :
  StronglySorted str_le (sorted identities) ∧ NoDup (sorted identities) ∧
  ∀ identity, identity ∈ sorted identities ↔ identity ∈ identities.
Proof.
  unfold sorted. split_and!.
  - apply (StronglySorted_merge_sort _).
  - rewrite merge_sort_Permutation. apply NoDup_elements.
  - intros i. rewrite merge_sort_Permutation. apply elem_of_elements.
Qed.

Lemma elem_of_delete_set identities_body identities_query identity :
  identity ∈ delete_set identities_body identities_query ↔
  supplied identities_body identities_query identity.
Proof.
  unfold delete_set, supplied.
  destruct identities_body as [[x|l]|], identities_query as [q|];
    rewrite ?elem_of_union, ?elem_of_list_to_set, ?elem_of_singleton, ?elem_of_empty;
    tauto.
Qed.

Section DeleteFacts.
Context {S : Type} {B : Backend S}.

(** C8: a bulk delete that succeeds returns the supplied identities, each
  once, in the lexicographic order of strings; with no identity supplied it
  raises 400 Bad Request, which is not the 502 of a write failure, and makes
  no backend call. *)
Theorem delete_entities_sorted
  (identities_body : option (one_or_many string))
  (identities_query : option (list string)) (st : S) (log : list call) :
((∀ identity, ¬ supplied identities_body identities_query identity) →
 delete_entities identities_body identities_query (st, log)
 = (Raise (HTTPException HTTP_400_BAD_REQUEST), (st, log)) ∧
 HTTP_400_BAD_REQUEST ≠ HTTP_502_BAD_GATEWAY) ∧
(∀ r w,
   delete_entities identities_body identities_query (st, log) = (Ok r, w) →
   status_code r = HTTP_200_OK ∧
   StronglySorted str_le (body r) ∧ NoDup (body r) ∧
   ∀ identity,
     identity ∈ body r ↔ supplied identities_body identities_query identity) ∧
(∀ identity st',
   supplied identities_body identities_query identity →
   delete (elements (delete_set identities_body identities_query)) st
   = (Ok tt, st') →
   ∃ r w, delete_entities identities_body identities_query (st, log) = (Ok r, w)).
Proof.
unfold delete_entities. split_and!.
- intros Hnone. split; [|done]. rewrite decide_True; [done|].
  apply set_eq. intros i. rewrite elem_of_delete_set, elem_of_empty.
  split; [apply Hnone|done].
- intros r w. case_decide as He; [discriminate|].
  unfold bind, try_except, invoke, raise, ret. simpl.
  destruct (delete _ st) as [[[]|e] s]; simpl.
  + intros [= <- <-]. simpl. split; [done|].
    destruct (sorted_spec (delete_set identities_body identities_query))
      as (H1 & H2 & H3).
    split_and!; [done..|]. intros i. by rewrite H3, elem_of_delete_set.
  + destruct (write_access_exception e); simpl; discriminate.
- intros i st' Hi Hd. rewrite decide_False.
  + unfold bind, try_except, invoke, raise, ret. simpl. rewrite Hd. simpl. eauto.
  + apply elem_of_delete_set in Hi. intros He. rewrite He in Hi.
    by apply elem_of_empty in Hi.
Qed.

(** Once the identity is found in the store, the single delete is the bulk
  delete of that one identity. *)
Lemma delete_entity_as_batch (identity : string) (st : S) (log : list call) :
contains identity st = true →
delete_entity identity (st, log)
= match delete_entities (Some (Single identity)) None
          (st, log ++ [CallContains identity]) with
  | (Ok r, w) => (Ok (mkResponse (status_code r) identity), w)
  | (Raise e, w) => (Raise e, w)
  end.
Proof.
intros Hc. unfold delete_entity, delete_entities, delete_set.
rewrite (left_id_L ∅ (∪)). rewrite decide_False by apply non_empty_singleton_L.
rewrite elements_singleton.
unfold bind, in_backend, query, try_except, invoke, raise, ret. simpl.
rewrite Hc. simpl.
destruct (delete [identity] st) as [[[]|e] s]; simpl; [done|].
destruct (write_access_exception e); done.
Qed.

End DeleteFacts.

(** ** The mock backend *)

Section MockFacts.
Variable get_uri : document → string.
Variable _prepare_entity : document → document.


(** [MockBackend.create] mirrors the arity of what it is given: nothing for
  nothing, one document for one, a list for several. *)
Lemma mock_create_arity (entities : list document) (st : MockStore) :
match entities with
| [] => mock_create get_uri _prepare_entity entities st = (Ok CreatedNone, st)
| [entity] =>
    fst (mock_create get_uri _prepare_entity entities st)
    = Ok (CreatedDict (_prepare_entity entity))
| _ =>
    fst (mock_create get_uri _prepare_entity entities st)
    = Ok (CreatedList (map _prepare_entity entities))
end ∧
(entities ≠ [] →
 ∃ c st', mock_create get_uri _prepare_entity entities st = (Ok c, st') ∧
          create_failed (length entities) c = false).
Proof.
destruct entities as [|e [|e' es]]; (split; [reflexivity|]); intros H; try done.
- eexists _, _. split; [reflexivity|]. reflexivity.
- eexists _, _. split; [reflexivity|]. reflexivity.
Qed.

(** Identities that are not in the store are passed over by [delete]. *)
Lemma mock_delete_loop_absent (identities : list string) (st : MockStore) :
(∀ identity, identity ∈ identities → identity ∉ test_data_uris st) →
mock_delete_loop identities st = (Ok tt, st).
Proof.
induction identities as [|i l IH]; intros H; simpl; [done|].
rewrite decide_False by (apply H; left).
apply IH. intros j Hj. apply H. by right.
Qed.

Lemma mock_delete_absent (identities : list string) (st : MockStore) :
(∀ identity, identity ∈ identities → uri_valid identity = true) →
(∀ identity, identity ∈ identities → identity ∉ test_data_uris st) →
mock_delete identities st = (Ok tt, st).
Proof.
intros Hv Ha. unfold mock_delete.
replace (existsb _ identities) with false; [by apply mock_delete_loop_absent|].
symmetry. apply not_true_is_false. rewrite existsb_exists.
intros (i & Hi & Hn). apply list_elem_of_In in Hi. rewrite (Hv i Hi) in Hn. done.
Qed.

(** C3, as amended: at the store and in the bulk delete, deleting an identity
  that is not in the store is a silent no-op; the single delete raises 404
  Not Found for it and makes no [delete] call; for an identity in the store
  it is the bulk delete of that one identity. *)
Theorem delete_absent_identity (identity : string) (st : MockStore) (log : list call) :
uri_valid identity = true →
(identity ∉ test_data_uris st →
 mock_delete [identity] st = (Ok tt, st) ∧
 delete_entities (B:=MockBackend get_uri _prepare_entity)
   (Some (Single identity)) None (st, log)
 = (Ok (mkResponse HTTP_200_OK [identity]), (st, log ++ [CallDelete [identity]])) ∧
 delete_entity (B:=MockBackend get_uri _prepare_entity) identity (st, log)
 = (Raise (HTTPException HTTP_404_NOT_FOUND), (st, log ++ [CallContains identity]))) ∧
(identity ∈ test_data_uris st →
 delete_entity (B:=MockBackend get_uri _prepare_entity) identity (st, log)
 = match delete_entities (B:=MockBackend get_uri _prepare_entity)
           (Some (Single identity)) None (st, log ++ [CallContains identity]) with
   | (Ok r, w) => (Ok (mkResponse (status_code r) identity), w)
   | (Raise e, w) => (Raise e, w)
   end).
Proof.
intros Hv. split; intros Hi.
- assert (Hd : mock_delete [identity] st = (Ok tt, st)).
  { apply mock_delete_absent; intros j ->%list_elem_of_singleton; done. }
  split_and!; [done| |].
  + unfold delete_entities, delete_set.
    rewrite (left_id_L ∅ (∪)). rewrite decide_False by apply non_empty_singleton_L.
    unfold sorted. rewrite elements_singleton.
    unfold bind, try_except, invoke, raise, ret. simpl. rewrite Hd. done.
  + apply delete_entity_not_found. simpl. unfold mock_contains.
    by apply bool_decide_eq_false.
- apply delete_entity_as_batch. simpl. unfold mock_contains.
  by apply bool_decide_eq_true.
Qed.

End MockFacts.

(** ** The lists of the mock store *)

Module ListFacts.

Lemma index_bound (x : string) (l : list string) : x ∈ l → index x l < length l.
Proof.
  induction l as [|y l IH]; [by intros ?%elem_of_nil|].
  simpl. destruct (String.eqb y x) eqn:E; [lia|].
  intros [->|H]%elem_of_cons; [by rewrite String.eqb_refl in E|].
  specialize (IH H). lia.
Qed.

Lemma index_absent (x : string) (l : list string) : x ∉ l → index x l = length l.
Proof.
  induction l as [|y l IH]; [done|]. intros [Hy Hl]%not_elem_of_cons. simpl.
  destruct (String.eqb y x) eqn:E; [by apply String.eqb_eq in E|]. by rewrite IH.
Qed.

Lemma lookup_index (x : string) (l : list string) : x ∈ l → l !! index x l = Some x.
Proof.
  induction l as [|y l IH]; [by intros ?%elem_of_nil|]. simpl.
  destruct (String.eqb y x) eqn:E; [by apply String.eqb_eq in E as ->|].
  intros [->|H]%elem_of_cons; [by rewrite String.eqb_refl in E|]. by apply IH.
Qed.

Lemma index_ne (x y : string) (l : list string) :
  x ∈ l → x ≠ y → index x l ≠ index y l.
Proof.
  intros Hx Hne Heq. destruct (decide (y ∈ l)) as [Hy|Hy].
  - apply lookup_index in Hx, Hy. rewrite Heq in Hx. congruence.
  - apply index_bound in Hx. apply index_absent in Hy. lia.
Qed.

Lemma index_app_l (x : string) (l l' : list string) :
  x ∈ l → index x (l ++ l') = index x l.
Proof.
  induction l as [|y l IH]; [by intros ?%elem_of_nil|]. simpl.
  destruct (String.eqb y x) eqn:E; [done|].
  intros [->|H]%elem_of_cons; [by rewrite String.eqb_refl in E|]. by rewrite IH.
Qed.

Lemma index_app_r (x : string) (l l' : list string) :
  x ∉ l → index x (l ++ l') = length l + index x l'.
Proof.
  induction l as [|y l IH]; [done|]. intros [Hy Hl]%not_elem_of_cons. simpl.
  destruct (String.eqb y x) eqn:E; [by apply String.eqb_eq in E|]. by rewrite IH.
Qed.

Lemma elem_of_remove_ne (x y : string) (l : list string) :
  x ≠ y → y ∈ remove x l ↔ y ∈ l.
Proof.
  intros Hne. induction l as [|z l IH]; [done|]. simpl.
  destruct (String.eqb z x) eqn:E.
  - apply String.eqb_eq in E as ->. rewrite elem_of_cons.
    split; [by right|]. intros [Hy|Hy]; [by destruct Hne|done].
  - rewrite !elem_of_cons, IH. done.
Qed.

Lemma remove_NoDup (x : string) (l : list string) :
  NoDup l → NoDup (remove x l) ∧ x ∉ remove x l.
Proof.
  induction 1 as [|z l Hz Hl IH]; simpl; [split; [constructor|apply not_elem_of_nil]|].
  destruct (String.eqb z x) eqn:E.
  - apply String.eqb_eq in E as ->. done.
  - apply String.eqb_neq in E. destruct IH as [IH1 IH2]. split.
    + constructor; [|done]. by rewrite elem_of_remove_ne.
    + rewrite not_elem_of_cons. split; [congruence|done].
Qed.

Lemma length_remove (x : string) (l : list string) :
  x ∈ l → Datatypes.S (length (remove x l)) = length l.
Proof.
  induction l as [|z l IH]; [by intros ?%elem_of_nil|]. simpl.
  destruct (String.eqb z x) eqn:E; [done|].
  intros [->|H]%elem_of_cons; [by rewrite String.eqb_refl in E|].
  simpl. by rewrite IH.
Qed.

(** Removing an identity and its document leaves every other identity with
    its document. *)
Lemma lookup_after_remove {A} (x y : string) (l : list string) (data : list A) :
  x ∈ l → x ≠ y →
  base.delete (index x l) data !! index y (remove x l) = data !! index y l.
Proof.
  intros Hx Hne. revert data.
  induction l as [|z l IH]; intros data; [by apply elem_of_nil in Hx|]. simpl.
  destruct (String.eqb z x) eqn:Ex.
  - apply String.eqb_eq in Ex as ->.
    destruct (String.eqb x y) eqn:Ey; [by apply String.eqb_eq in Ey|].
    by destruct data.
  - apply elem_of_cons in Hx as [->|Hx]; [by rewrite String.eqb_refl in Ex|].
    simpl. destruct (String.eqb z y) eqn:Ey; [by destruct data|].
    destruct data as [|d data]; [done|]. simpl. by apply IH.
Qed.

Lemma remove_delete (x : string) (l : list string) :
  remove x l = base.delete (index x l) l.
Proof.
  induction l as [|z l IH]; simpl; [done|].
  destruct (String.eqb z x); simpl; [done|]. by rewrite IH.
Qed.

Lemma map_delete {A B} (f : A → B) (i : nat) (l : list A) :
  map f (base.delete i l) = base.delete i (map f l).
Proof.
  revert i. induction l as [|a l IH]; intros [|i]; simpl; try done. by rewrite IH.
Qed.

(** Where no identity is there twice, an identity that is replaced by
    another is gone. *)
Lemma not_elem_of_insert_index (x y : string) (l : list string) :
  NoDup l → x ∈ l → y ≠ x → x ∉ <[index x l := y]> l.
Proof.
  intros Hnd Hx Hne Hin. apply list_elem_of_lookup in Hin as [j Hj].
  pose proof (lookup_index x l Hx) as Hi.
  destruct (decide (j = index x l)) as [->|Hji].
  - rewrite list_lookup_insert_eq in Hj by (by apply index_bound). congruence.
  - rewrite list_lookup_insert_ne in Hj by done.
    by pose proof (NoDup_lookup _ _ _ _ Hnd Hj Hi).
Qed.



End ListFacts.


Section SearchFacts.
Variable get_uri : document → string.
Variable _prepare_entity : document → document.

Lemma value_eqb_VStr (s : string) (v : value) :
value_eqb (VStr s) v = true ↔ v = VStr s.
Proof.
destruct v; simpl; try (split; [discriminate|discriminate]).
rewrite String.eqb_eq. split; [by intros ->|by intros [= ->]].
Qed.

(** The test that [search] runs and what the filter is to select agree,
  wherever the test raises nothing. *)
Lemma name_in_named (requested : string) (props : list value) (b : bool) :
name_in requested props = Ok b → (b = true ↔ Exists (named requested) props).
Proof.
revert b. induction props as [|v props IH]; intros b; cbn [name_in].
- intros [= <-]. split; [done|]. by intros ?%Exists_nil.
- destruct v as [| | | | |d]; try discriminate.
  destruct (value_eqb (VStr requested) (default VNone (dict_get "name" d))) eqn:E;
    cbv iota.
  + intros [= <-]. split; [|done]. intros _. apply Exists_cons_hd. unfold named.
    apply value_eqb_VStr in E.
    destruct (dict_get "name" d); simpl in E; [by rewrite E|discriminate].
  + intros H. rewrite (IH b H), Exists_cons. split; [by right|].
    intros [Hn|?]; [|done]. exfalso. unfold named in Hn.
    destruct (dict_get "name" d) as [[]|]; try done. subst. simpl in E.
    by rewrite String.eqb_refl in E.
Qed.

Lemma any_name_in_named (by_names : list string) (props : list value) (b : bool) :
any_name_in by_names props = Ok b →
(b = true ↔ Exists (fun requested => Exists (named requested) props) by_names).
Proof.
revert b. induction by_names as [|n ns IH]; intros b; simpl.
- intros [= <-]. split; [done|]. by intros ?%Exists_nil.
- destruct (name_in n props) as [[]|] eqn:E; [| |discriminate].
  + intros [= <-]. split; [|done]. intros _. apply Exists_cons_hd.
    by apply (name_in_named _ _ _ E).
  + intros H. rewrite (IH b H), Exists_cons. split; [by right|].
    intros [Hn|?]; [|done]. by apply (name_in_named _ _ _ E) in Hn.
Qed.

Lemma field_matches_possesses (field invalid : string) (by_names : list string)
  (entity : document) (b : bool) :
field_matches field invalid by_names entity = Ok b →
(b = true ↔ possesses field by_names entity).
Proof.
unfold field_matches, possesses.
destruct (dict_get field entity) as [[| | | |l|d]|]; try discriminate.
- apply any_name_in_named.
- intros [= <-]. induction by_names as [|n ns IH]; simpl.
  + split; [done|]. by intros ?%Exists_nil.
  + rewrite orb_true_iff, Exists_cons, IH. unfold dict_has.
    destruct (dict_get n d); simpl; split; intros [H|H]; eauto; try done.
- destruct by_names; [|discriminate]. intros [= <-].
  split; [done|]. by intros ?%Exists_nil.
Qed.

Lemma select_filter (test : document → result error bool) (P : document → Prop)
  `{!∀ entity, Decision (P entity)} (data l : list document) :
(∀ entity b, test entity = Ok b → (b = true ↔ P entity)) →
select test data = Ok l → l = filter P data.
Proof.
intros Ht. revert l. induction data as [|d data IH]; intros l; simpl.
- by intros [= <-].
- destruct (test d) as [b|] eqn:Ed; [|discriminate].
  destruct (select test data) as [rest|]; [|discriminate].
  intros [= <-]. rewrite filter_cons, (IH rest eq_refl).
  destruct b.
  + rewrite decide_True; [done|]. by apply (Ht d true).
  + rewrite decide_False; [done|]. intros HP. by apply (Ht d false) in HP.
Qed.

(** The part of the result that one name filter contributes. *)
Lemma filter_part (field invalid : string) (by_names : option (list string))
  (st : MockStore) (l : list document) :
match truthy by_names with
| [] => Ok []
| names => select (field_matches field invalid names) (test_data st)
end = Ok l →
l = filter (possesses field (truthy by_names)) (test_data st).
Proof.
destruct (truthy by_names) as [|n ns] eqn:E.
- intros [= <-]. induction (test_data st) as [|d data IH]; [done|].
  rewrite filter_cons, decide_False; [done|]. by intros ?%Exists_nil.
- apply select_filter. intros e b. apply field_matches_possesses.
Qed.




(** The part that the identities contribute: what [read] finds for each. *)
Lemma lookup_all_omap (by_identity : list string) (st : MockStore) (l : list document) :
lookup_all by_identity st = Ok l → l = omap (found st) by_identity.
Proof.
revert l. induction by_identity as [|i ids IH]; intros l; simpl.
- by intros [= <-].
- unfold found at 1, mock_read. case_decide as Hi.
  + destruct (stored i st) as [d|] eqn:Ed; [|discriminate].
    destruct (lookup_all ids st) as [more|]; [|discriminate].
    intros [= <-]. by rewrite (IH more eq_refl).
  + apply IH.
Qed.

(** The result of [search], part by part. *)
Lemma mock_search_exact (by_properties by_dimensions by_identity : option (list string))
  (st : MockStore) (results : list document) :
mock_search by_properties by_dimensions by_identity st = Ok results →
results
= filter (possesses "properties" (truthy by_properties)) (test_data st) ++
  filter (possesses "dimensions" (truthy by_dimensions)) (test_data st) ++
  omap (found st) (truthy by_identity).
Proof.
unfold mock_search.
destruct (match truthy by_properties with [] => _ | _ => _ end)
  as [ps|] eqn:Ep; [|discriminate].
destruct (match truthy by_dimensions with [] => _ | _ => _ end)
  as [ds|] eqn:Ed; [|discriminate].
destruct (lookup_all (truthy by_identity) st) as [ids|] eqn:Ei; [|discriminate].
intros [= <-].
by rewrite (filter_part _ _ _ _ _ Ep), (filter_part _ _ _ _ _ Ed),
  (lookup_all_omap _ _ _ Ei).
Qed.


Lemma index_lt (x : string) (l : list string) : x ∈ l → index x l < length l.
Proof.
induction l as [|y l IH]; [by intros ?%elem_of_nil|].
simpl. destruct (String.eqb y x) eqn:E; [lia|].
intros [->|H]%elem_of_cons; [by rewrite String.eqb_refl in E|].
specialize (IH H). lia.
Qed.

Lemma name_in_dicts (requested : string) (props : list value) :
Forall is_dict props → ∃ b, name_in requested props = Ok b.
Proof.
induction 1 as [|v props Hv _ IH]; [simpl; eauto|].
destruct v as [| | | | |d]; try done. cbn [name_in].
destruct (value_eqb (VStr requested) (default VNone (dict_get "name" d))); eauto.
Qed.

Lemma any_name_in_dicts (by_names : list string) (props : list value) :
Forall is_dict props → ∃ b, any_name_in by_names props = Ok b.
Proof.
intros Hp. induction by_names as [|n ns IH]; simpl; [eauto|].
destruct (name_in_dicts n props Hp) as [[] ->]; eauto.
Qed.

Lemma field_matches_dialect (field invalid : string) (by_names : list string)
  (entity : document) :
dialect field entity → ∃ b, field_matches field invalid by_names entity = Ok b.
Proof.
unfold dialect, field_matches.
destruct (dict_get field entity) as [[]|]; try done; eauto.
apply any_name_in_dicts.
Qed.

Lemma select_total (test : document → result error bool) (data : list document) :
Forall (fun entity => ∃ b, test entity = Ok b) data → ∃ l, select test data = Ok l.
Proof.
induction 1 as [|d data [b Hb] _ [l IH]]; simpl; [eauto|].
rewrite Hb, IH. eauto.
Qed.

Lemma lookup_all_total (by_identity : list string) (st : MockStore) :
length (test_data st) = length (test_data_uris st) →
∃ l, lookup_all by_identity st = Ok l.
Proof.
intros Hlen. induction by_identity as [|i ids [l IH]]; simpl; [eauto|].
case_decide as Hi; [|eauto]. unfold stored.
destruct (lookup_lt_is_Some_2 (test_data st) (index i (test_data_uris st)))
  as [d ->]; [rewrite Hlen; by apply index_lt|].
rewrite IH. eauto.
Qed.

(** On a well-formed store [search] raises nothing. *)
Lemma mock_search_total (by_properties by_dimensions by_identity : option (list string))
  (st : MockStore) :
wf_store st →
∃ results, mock_search by_properties by_dimensions by_identity st = Ok results.
Proof.
intros [Hlen Hwf]. unfold mock_search.
assert (Hp : ∃ l, match truthy by_properties with
                  | [] => Ok []
                  | names => select (field_matches "properties"
                               "Invalid entity properties." names) (test_data st)
                  end = Ok l).
{ destruct (truthy by_properties); [eauto|]. apply select_total.
  eapply Forall_impl; [exact Hwf|]. intros d [H _]. by apply field_matches_dialect. }
assert (Hd : ∃ l, match truthy by_dimensions with
                  | [] => Ok []
                  | names => select (field_matches "dimensions"
                               "Invalid entity dimensions." names) (test_data st)
                  end = Ok l).
{ destruct (truthy by_dimensions); [eauto|]. apply select_total.
  eapply Forall_impl; [exact Hwf|]. intros d [_ H]. by apply field_matches_dialect. }
destruct Hp as [ps ->], Hd as [ds ->].
destruct (lookup_all_total (truthy by_identity) st Hlen) as [found ->]. eauto.
Qed.

End SearchFacts.

(** ** The routes on the fixture store *)

(** A decidable proposition that holds, by evaluation. *)
Ltac decided := apply (bool_decide_unpack _); vm_compute; exact I.

Lemma parse_compose_roundtrip_witness :
  parse "http://x.org/0.1/Box" = Some (mkIdentity "http://x.org" "0.1" "Box") ∧
  compose (mkIdentity "http://x.org" "0.1" "Box") = "http://x.org/0.1/Box".
Proof.
  split; [vm_compute; reflexivity|].
  apply (parse_compose_roundtrip "http://x.org/0.1/Box"). vm_compute. reflexivity.
Defined.

Lemma get_entities_never_empty_witness :
  get_entities (B:=backend) None None None (mkMockStore [] [], [])
  = (Raise (HTTPException HTTP_404_NOT_FOUND),
     (mkMockStore [] [], [CallSearch None None None])).
Proof.
  apply (proj1 (get_entities_never_empty (B:=backend) None None None
                  (mkMockStore [] []) [])).
  reflexivity.
Defined.

Lemma create_entities_arity_witness :
  create_entities (B:=backend) (Single Cone) (store0, [])
  = (Ok (mkResponse HTTP_201_CREATED (CreatedDict Cone)),
     (mkMockStore [Box; Ball; Cone]
        [derive_identity Box; derive_identity Ball; derive_identity Cone],
      [CallCreate [Cone]])).
Proof.
  refine (proj1 (proj2 (create_entities_arity (B:=backend) (Single Cone) [Cone]
            store0 (mkMockStore [Box; Ball; Cone]
                      [derive_identity Box; derive_identity Ball; derive_identity Cone])
            [] (CreatedDict Cone) eq_refl eq_refl) _)).
  intros [H|[[_ H]|[H _]]]; [discriminate H|discriminate H|simpl in H; lia].
Defined.

Lemma update_entity_identity_check_witness :
  update_entity (B:=backend) derive_identity "http://x.org/0.1/Box" Cone (store0, [])
  = (Raise (HTTPException HTTP_400_BAD_REQUEST), (store0, [])) ∧
  fst (update_entity (B:=backend) derive_identity "http://x.org/0.1/Cone" Cone
         (store0, []))
  ≠ Raise (HTTPException HTTP_400_BAD_REQUEST).
Proof.
  split.
  - apply (proj1 (update_entity_identity_check (B:=backend) derive_identity
                    "http://x.org/0.1/Box" Cone store0 [])).
    vm_compute. discriminate.
  - apply (proj2 (update_entity_identity_check (B:=backend) derive_identity
                    "http://x.org/0.1/Cone" Cone store0 [])).
    vm_compute. reflexivity.
Defined.

Lemma patch_entities_preflight_witness :
  patch_entities (B:=backend) derive_identity (Many [Box; Cone]) (store0, [])
  = (Raise (HTTPException HTTP_502_BAD_GATEWAY),
     (store0, [CallContains (derive_identity Box); CallContains (derive_identity Cone)])).
Proof.
  refine (proj1 (patch_entities_preflight (B:=backend) derive_identity (Many [Box; Cone])
                   [Box; Cone] Cone store0 [] eq_refl _ _)).
  - right. left.
  - vm_compute. reflexivity.
Defined.

Lemma update_entities_all_existing_witness :
  update_entities (B:=backend) derive_identity (Many [Box; Ball]) (store0, [])
  = (Raise (Error (UnboundLocalError "created_entities")),
     (store0, [CallContains (derive_identity Box); CallContains (derive_identity Ball)])).
Proof.
  refine (update_entities_all_existing (B:=backend) derive_identity (Many [Box; Ball])
            [Box; Ball] store0 [] eq_refl _).
  intros e [->|[->|H%elem_of_nil]%elem_of_cons]%elem_of_cons;
    [vm_compute; reflexivity|vm_compute; reflexivity|destruct H].
Defined.

(** On the fixture store, which does not hold [Cone], the batch patch of
    [Cone] raises 502 Bad Gateway, the status of a write failure, where the
    single patch of [Cone] raises 404 Not Found. *)
Lemma patch_missing_status :
  mock_contains (derive_identity Cone) store0 = false ∧
  fst (run_on store0 (patch_entities (B:=backend) derive_identity (Single Cone)))
  = Raise (HTTPException HTTP_502_BAD_GATEWAY) ∧
  fst (run_on store0 (patch_entities (B:=backend) derive_identity (Many [Box; Cone])))
  = Raise (HTTPException HTTP_502_BAD_GATEWAY) ∧
  fst (run_on store0 (patch_entity (B:=backend) fixture_str (derive_identity Cone) Cone))
  = Raise (HTTPException HTTP_404_NOT_FOUND).
Proof. vm_compute. auto. Qed.

(** The single patch of the identity of [Cone], which is not in the store,
    with a body that names another namespace raises 400 Bad Request: the
    identity check comes before the membership test. *)
Lemma patch_entity_mismatch_first :
  mock_contains "http://x.org/0.1/Cone" store0 = false ∧
  fst (run_on store0
         (patch_entity (B:=backend) fixture_str "http://x.org/0.1/Cone" elsewhere))
  = Raise (HTTPException HTTP_400_BAD_REQUEST).
Proof. vm_compute. auto. Qed.

Lemma patch_missing_identity_witness :
  patch_entities (B:=backend) derive_identity (Many [Box; Cone]) (store0, [])
  = (Raise (HTTPException HTTP_502_BAD_GATEWAY),
     (store0, [CallContains (derive_identity Box); CallContains (derive_identity Cone)])) ∧
  patch_entity (B:=backend) fixture_str (derive_identity Cone) describe (store0, [])
  = (Raise (HTTPException HTTP_404_NOT_FOUND),
     (store0, [CallContains (derive_identity Cone)])).
Proof.
  refine (patch_missing_identity (B:=backend) derive_identity fixture_str
            (Many [Box; Cone]) [Box; Cone] Cone describe None store0 [] eq_refl _ _ _).
  - right. left.
  - vm_compute. reflexivity.
  - vm_compute. reflexivity.
Defined.

Lemma patch_entity_not_found_witness :
  patch_entity (B:=backend) fixture_str "http://x.org/0.1/Cone" describe (store0, [])
  = (Raise (HTTPException HTTP_404_NOT_FOUND),
     (store0, [CallContains "http://x.org/0.1/Cone"])).
Proof.
  refine (patch_entity_not_found (B:=backend) fixture_str "http://x.org/0.1/Cone"
            describe None store0 [] _ _); vm_compute; reflexivity.
Defined.

(** The claim C3 fails on the fixture store: the single delete of the valid
    identity of [Cone], which is not in the store, raises 404 Not Found. *)
Lemma delete_entity_absent_raises :
  uri_valid (derive_identity Cone) = true ∧
  (derive_identity Cone ∉ test_data_uris store0) ∧
  fst (run_on store0 (delete_entity (B:=backend) (derive_identity Cone)))
  = Raise (HTTPException HTTP_404_NOT_FOUND).
Proof.
  split_and!; [vm_compute; reflexivity| |vm_compute; reflexivity].
  apply (bool_decide_unpack _). vm_compute. exact I.
Qed.

Lemma delete_absent_identity_witness :
  mock_delete [derive_identity Cone] store0 = (Ok tt, store0) ∧
  delete_entities (B:=backend) (Some (Single (derive_identity Cone))) None (store0, [])
  = (Ok (mkResponse HTTP_200_OK [derive_identity Cone]),
     (store0, [CallDelete [derive_identity Cone]])) ∧
  delete_entity (B:=backend) (derive_identity Cone) (store0, [])
  = (Raise (HTTPException HTTP_404_NOT_FOUND),
     (store0, [CallContains (derive_identity Cone)])).
Proof.
  refine (proj1 (delete_absent_identity derive_identity id (derive_identity Cone)
                   store0 [] _) _).
  - vm_compute. reflexivity.
  - apply (bool_decide_unpack _). vm_compute. exact I.
Defined.

Lemma delete_entities_sorted_witness :
  ∃ w,
    delete_entities (B:=backend)
      (Some (Many [derive_identity Cone; derive_identity Box; derive_identity Box]))
      (Some [derive_identity Ball]) (store0, [])
    = (Ok (mkResponse HTTP_200_OK
             [derive_identity Ball; derive_identity Box; derive_identity Cone]), w) ∧
    StronglySorted str_le
      [derive_identity Ball; derive_identity Box; derive_identity Cone].
Proof.
  eexists. split; [vm_compute; reflexivity|].
  refine (proj1 (proj2 (proj1 (proj2 (delete_entities_sorted (B:=backend)
            (Some (Many [derive_identity Cone; derive_identity Box; derive_identity Box]))
            (Some [derive_identity Ball]) store0 []))
            (mkResponse HTTP_200_OK
               [derive_identity Ball; derive_identity Box; derive_identity Cone])
            _ _))).
  vm_compute. reflexivity.
Defined.


(** ** The identity grammar: what is accepted, and how it is split *)

Module GrammarFacts.
Import RegexFacts.

Section loops.
Variable r : re.
Variable step : list ascii → captures → cont → option captures.
Variable G : Prop.
Hypothesis step_matches : ∀ inp env k res,
step inp env k = Some res →
∃ pre rest env',
  inp = pre ++ rest ∧ matches r pre ∧ k rest env' = Some res ∧ (G → env' = env).

Lemma plus_loop_matches fuel : ∀ inp env k res,
plus_loop step fuel inp env k = Some res →
∃ pre rest env',
  inp = pre ++ rest ∧ matches (Plus r) pre ∧ k rest env' = Some res ∧
  (G → env' = env).
Proof.
induction fuel as [|fuel IH]; intros inp env k res H; [discriminate|].
simpl in H. apply step_matches in H as (pre & rest & env1 & -> & Hm & H & He).
apply orelse_Some in H as [H | [_ H]].
- case_decide as Hlen; [|discriminate].
  apply IH in H as (pre2 & rest2 & env2 & -> & Hm2 & H & He2).
  exists (pre ++ pre2), rest2, env2. rewrite <- app_assoc.
  split_and!; auto.
  + apply MPlusMore; auto. intros ->. simpl in Hlen. lia.
  + intros g. rewrite He2, He; auto.
- exists pre, rest, env1. split_and!; auto. by apply MPlusOne.
Qed.

Lemma upto_loop_matches n : ∀ inp env k res,
upto_loop step n inp env k = Some res →
∃ pre rest env',
  inp = pre ++ rest ∧ matches (Upto n r) pre ∧ k rest env' = Some res ∧
  (G → env' = env).
Proof.
induction n as [|n IH]; intros inp env k res H; simpl in H.
- exists [], inp, env. split_and!; auto. constructor.
- apply orelse_Some in H as [H | [_ H]].
  + apply step_matches in H as (pre & rest & env1 & -> & Hm & H & He).
    apply IH in H as (pre2 & rest2 & env2 & -> & Hm2 & H & He2).
    exists (pre ++ pre2), rest2, env2. rewrite <- app_assoc.
    split_and!; auto; [by apply MUptoMore|].
    intros g. rewrite He2, He; auto.
  + exists [], inp, env. split_and!; auto. constructor.
Qed.
End loops.

Lemma one_char p inp env k res :
  one p inp env k = Some res →
  ∃ c pre rest,
    inp = pre ++ rest ∧ char pre c ∧ p c = true ∧ k rest env = Some res.
Proof.
  intros (c & rest & (pre & -> & _ & Hc)%next_char_split & Hp & H)%one_sound.
  eauto 8.
Qed.

Lemma none_of_spec (cs : list ascii) (c : N) : none_of cs c = true ↔ c ∉ map code cs.
Proof.
  unfold none_of. rewrite negb_true_iff, <- not_true_iff_false, existsb_exists.
  rewrite list_elem_of_fmap. split; intros H.
  - intros (a & -> & Ha). apply H. exists a. split; [by apply list_elem_of_In|].
    apply N.eqb_refl.
  - intros (a & Ha & <-%N.eqb_eq). apply H. exists a. split; [done|].
    by apply list_elem_of_In.
Qed.

Lemma char_nonempty t c : char t c → t ≠ [].
Proof. by intros H ->. Qed.

(** A one-byte character is its own encoding; the bytes of a longer
    encoding are not one-byte characters. *)
Lemma char_byte t c (b : ascii) :
  char t c → b ∈ t → (code b < 128)%N → t = [b] ∧ c = code b.
Proof.
  unfold char, next_char, continuation. intros H Hb Hlt.
  apply N.ltb_lt in Hlt.
  repeat case_match; simplify_eq;
    repeat match goal with
           | H : _ ∈ _ :: _ |- _ => apply elem_of_cons in H as [->|H]
           | H : _ ∈ [] |- _ => by apply elem_of_nil in H
           | H : (_ && _) = true |- _ => apply andb_true_iff in H as [? ?]
           end;
    try done; try congruence;
    repeat match goal with
           | H : (_ <=? _)%N = true |- _ => apply N.leb_le in H
           | H : (_ <? _)%N = true |- _ => apply N.ltb_lt in H
           | H : (_ <? _)%N = false |- _ => apply N.ltb_ge in H
           end; lia.
Qed.

Lemma char_no_byte t c (b : ascii) :
  char t c → (code b < 128)%N → c ≠ code b → b ∉ t.
Proof. intros Ht Hlt Hc Hb. by destruct (char_byte t c b Ht Hb Hlt) as [_ ?]. Qed.

Lemma chars_no_byte (p : N → Prop) l (b : ascii) :
  chars p l → (code b < 128)%N → ¬ p (code b) → b ∉ l.
Proof.
  intros (ts & _ & -> & Hts) Hlt Hp. induction Hts as [|t ts (c & Ht & Hc) _ IH].
  - apply not_elem_of_nil.
  - simpl. rewrite not_elem_of_app. split; [|done].
    eapply char_no_byte; [done..|]. by intros ->.
Qed.

Lemma chars_impl (p q : N → Prop) l : (∀ c, p c → q c) → chars p l → chars q l.
Proof.
  intros Hpq (ts & Hne & -> & Hts). exists ts. split_and!; [done..|].
  eapply Forall_impl; [exact Hts|]. intros t (c & ? & ?). eauto.
Qed.

(** What a successful run consumed is a text that the expression matches. *)
Lemma run_matches r : ∀ inp env k res,
  run r inp env k = Some res →
  ∃ pre rest env',
    inp = pre ++ rest ∧ matches r pre ∧ k rest env' = Some res ∧
    (nogroups r = true → env' = env).
Proof.
  induction r as [s| | |cs|r1 IH1 r2 IH2|r1 IH1|r1 IH1|n r1 IH1|nm r1 IH1|];
    intros inp env k res H.
  2-10: cbn [run] in H.
  - apply run_Lit in H as (rest & -> & H). exists (list_ascii_of_string s), rest, env.
    split_and!; auto. constructor.
  - apply one_char in H as (c & pre & rest & -> & Ht & Hc & H). exists pre, rest, env.
    split_and!; auto. apply (MDot _ c); [done|].
    by apply negb_true_iff, N.eqb_neq in Hc.
  - apply one_char in H as (c & pre & rest & -> & Ht & Hc & H). exists pre, rest, env.
    split_and!; auto. by apply (MDigit _ c).
  - apply one_char in H as (c & pre & rest & -> & Ht & Hc & H). exists pre, rest, env.
    split_and!; auto. apply (MNoneOf _ _ c); [done|]. by apply none_of_spec.
  - apply IH1 in H as (pre & rest & env1 & -> & Hm1 & H & He).
    apply IH2 in H as (pre2 & rest2 & env2 & -> & Hm2 & H & He2).
    exists (pre ++ pre2), rest2, env2. rewrite <- app_assoc.
    split_and!; auto; [by constructor|].
    simpl. intros [g1 g2]%andb_true_iff. rewrite He2, He; auto.
  - apply orelse_Some in H as [H | [_ H]].
    + apply IH1 in H as (pre & rest & env1 & -> & Hm1 & H & He).
      exists pre, rest, env1. split_and!; auto. by apply MOptSome.
    + exists [], inp, env. split_and!; auto. constructor.
  - eapply plus_loop_matches; [|exact H]. intros ? ? ? ? Hs. by apply IH1 in Hs.
  - eapply upto_loop_matches; [|exact H]. intros ? ? ? ? Hs. by apply IH1 in Hs.
  - apply IH1 in H as (pre & rest & env1 & -> & Hm1 & H & He).
    eexists pre, rest, _. split_and!; [done|by constructor|exact H|discriminate].
  - destruct (at_end inp); [|discriminate].
    exists [], inp, env. split_and!; auto. constructor.
Qed.

Lemma run_Group_matches nm r inp env k res :
  nogroups r = true →
  run (Group nm r) inp env k = Some res →
  ∃ pre rest,
    inp = pre ++ rest ∧ matches r pre ∧ k rest (env ++ [(nm, pre)]) = Some res.
Proof.
  intros Hg H. cbn [run] in H.
  apply run_matches in H as (pre & rest & env1 & -> & Hm & H & He).
  rewrite take_consumed, (He Hg) in H. eauto.
Qed.

(** A run of a character class. *)
Lemma matches_plus_class (r : re) (p : N → Prop) (l : list ascii) :
  (∀ t, matches r t → ∃ c, char t c ∧ p c) →
  matches (Plus r) l → chars p l.
Proof.
  intros Hr H. remember (Plus r) as q eqn:Hq.
  induction H as [| | | | | | |r' t Ht _|r' t1 t2 Ht1 _ _ _ IH2| | | |];
    try discriminate; injection Hq as ->.
  - exists [t]. split_and!; [done|simpl; by rewrite app_nil_r|].
    constructor; [by apply Hr|constructor].
  - destruct (IH2 eq_refl) as (ts & _ & -> & Hts).
    exists (t1 :: ts). split_and!; [done..|]. constructor; [by apply Hr|done].
Qed.

Lemma class_plus_matches (r : re) (p : N → Prop) (l : list ascii) :
  (∀ t c, char t c → p c → matches r t) →
  chars p l → matches (Plus r) l.
Proof.
  intros Hr (ts & Hne & -> & Hts). induction Hts as [|t ts (c & Ht & Hc) Hts IH]; [done|].
  destruct ts as [|t' ts].
  - simpl. rewrite app_nil_r. apply MPlusOne. by eapply Hr.
  - change (concat (t :: t' :: ts)) with (t ++ concat (t' :: ts)).
    apply MPlusMore; [by eapply Hr|by eapply char_nonempty|by apply IH].
Qed.

Lemma matches_Dot t : matches Dot t → ∃ c, char t c ∧ c ≠ code newline.
Proof. inversion 1; subst. eauto. Qed.

Lemma matches_Digit t : matches Digit t → digit t.
Proof. inversion 1; subst. unfold digit. eauto. Qed.

Lemma matches_NoneOf cs t : matches (NoneOf cs) t → ∃ c, char t c ∧ c ∉ map code cs.
Proof. inversion 1; subst. eauto. Qed.

Lemma matches_Lit s t : matches (Lit s) t → t = list_ascii_of_string s.
Proof. by inversion 1. Qed.

Lemma matches_Cat r1 r2 t :
  matches (Cat r1 r2) t → ∃ t1 t2, t = t1 ++ t2 ∧ matches r1 t1 ∧ matches r2 t2.
Proof. inversion 1; subst. eauto. Qed.

(** *** The namespace *)

Lemma matches_namespace (ns : list ascii) :
  matches namespace_re ns ↔
  ∃ rest, chars (fun c => c ≠ code newline) rest ∧
          (ns = list_ascii_of_string "http://" ++ rest ∨
           ns = list_ascii_of_string "https://" ++ rest).
Proof.
  unfold namespace_re. split.
  - intros (t1 & t2 & -> & ->%matches_Lit & H)%matches_Cat.
    apply matches_Cat in H as (t3 & t4 & -> & Ho & H).
    apply matches_Cat in H as (t5 & t6 & -> & ->%matches_Lit & H).
    apply (matches_plus_class _ (fun c => c ≠ code newline)) in H; [|apply matches_Dot].
    exists t6. split; [done|].
    inversion Ho as [| | | | |r0|r0 p Hp| | | | | |]; subst; [by left|].
    apply matches_Lit in Hp as ->. by right.
  - intros (rest & Hrest & [-> | ->]).
    + change (list_ascii_of_string "http://" ++ rest)
        with (list_ascii_of_string "http" ++ [] ++ list_ascii_of_string "://" ++ rest).
      apply MCat; [apply MLit|]. apply (MCat _ _ []); [apply MOptNone|].
      apply MCat; [apply (MLit "://")|].
      apply (class_plus_matches _ (fun c => c ≠ code newline)); [|done].
      intros t c Ht Hc. by apply (MDot _ c).
    + change (list_ascii_of_string "https://" ++ rest)
        with (list_ascii_of_string "http" ++ list_ascii_of_string "s"
                ++ list_ascii_of_string "://" ++ rest).
      apply MCat; [apply MLit|]. apply MCat; [apply MOptSome, (MLit "s")|].
      apply MCat; [apply (MLit "://")|].
      apply (class_plus_matches _ (fun c => c ≠ code newline)); [|done].
      intros t c Ht Hc. by apply (MDot _ c).
Qed.

(** *** The version *)

Lemma matches_dot_digits (t : list ascii) :
  matches (Cat (Lit ".") (Plus Digit)) t ↔ ∃ g, digits g ∧ t = "."%char :: g.
Proof.
  split.
  - intros (t1 & t2 & -> & ->%matches_Lit & H)%matches_Cat.
    apply (matches_plus_class _ (fun c => is_digit c = true)) in H;
      [|apply matches_Digit]. by exists t2.
  - intros (g & Hg & ->). change ("."%char :: g) with (list_ascii_of_string "." ++ g).
    constructor; [constructor|].
    apply (class_plus_matches _ (fun c => is_digit c = true)); [|done].
    intros d c Hd Hc. by apply (MDigit _ c).
Qed.

Lemma matches_upto_groups (n : nat) : ∀ t,
  matches (Upto n (Cat (Lit ".") (Plus Digit))) t ↔
  ∃ groups, (length groups ≤ n)%nat ∧ Forall digits groups ∧
            t = concat (map (fun g => "."%char :: g) groups).
Proof.
  induction n as [|n IH]; intros t; split.
  - inversion 1; subst. exists []. split_and!; [simpl; lia|constructor|done].
  - intros ([|g gs] & Hlen & _ & ->); [constructor|simpl in Hlen; lia].
  - inversion 1 as [| | | | | | | | |n0 r0|n0 r0 p1 p2 Hp1 Hp2| |]; subst.
    + exists []. split_and!; [simpl; lia|constructor|done].
    + apply matches_dot_digits in Hp1 as (g & Hg & ->).
      apply IH in Hp2 as (gs & Hlen & Hgs & ->).
      exists (g :: gs). split_and!; [simpl; lia|by constructor|done].
  - intros ([|g gs] & Hlen & Hgs & ->); [constructor|].
    apply Forall_cons in Hgs as [Hg Hgs]. simpl in Hlen.
    change (concat (map (fun g0 => "."%char :: g0) (g :: gs)))
      with (("."%char :: g) ++ concat (map (fun g0 => "."%char :: g0) gs)).
    constructor; [apply matches_dot_digits; eauto|].
    apply IH. exists gs. split_and!; [lia|done..].
Qed.

Lemma matches_version (v : list ascii) :
  matches version_re v ↔
  ∃ d groups, digit d ∧ (length groups ≤ 2)%nat ∧ Forall digits groups ∧
              v = d ++ concat (map (fun g => "."%char :: g) groups).
Proof.
  unfold version_re. split.
  - intros (t1 & t2 & -> & Hd%matches_Digit & H)%matches_Cat.
    apply matches_upto_groups in H as (gs & Hlen & Hgs & ->). by exists t1, gs.
  - intros (d & gs & (c & Hd & Hc) & Hlen & Hgs & ->).
    constructor; [by apply (MDigit _ c)|].
    apply matches_upto_groups. eauto.
Qed.

(** *** The name, and the shape of a match *)

Lemma plus_one_greedy_class p fuel : ∀ inp env k res,
  length inp < fuel →
  plus_loop (one p) fuel inp env k = Some res →
  ∃ pre rest,
    inp = pre ++ rest ∧ chars (fun c => p c = true) pre ∧
    k rest env = Some res ∧
    ∀ c rest', next_char rest = Some (c, rest') → p c = true → k rest' env = None.
Proof.
  induction fuel as [|fuel IH]; intros inp env k res Hlen H; [lia|].
  simpl in H. apply one_sound in H as (c & rest & Hn & Hc & H).
  pose proof (next_char_shorter _ _ _ Hn) as Hs.
  apply next_char_split in Hn as (t & -> & _ & Ht).
  rewrite decide_True in H by done.
  apply orelse_Some in H as [H | [Hn H]].
  - apply IH in H as (pre & rest2 & -> & (ts & _ & -> & Hts) & H & Hg); [|lia].
    exists (t ++ concat ts), rest2. rewrite <- app_assoc. split_and!; auto.
    exists (t :: ts). split_and!; [done..|]. constructor; eauto.
  - exists t, rest. split_and!; auto.
    + exists [t]. split_and!; [done|simpl; by rewrite app_nil_r|].
      constructor; [eauto|constructor].
    + intros c2 rest2 Hn2 Hc2. destruct fuel as [|fuel]; [lia|].
      by eapply plus_one_None.
Qed.

Lemma uri_match_wf s env :
  re_match URI_REGEX s = Some env →
  ∃ ns v n,
    list_ascii_of_string s = ns ++ "/"%char :: v ++ "/"%char :: n ∧
    env = [("namespace", ns); ("version", v); ("name", n)] ∧
    matches namespace_re ns ∧ matches version_re v ∧
    chars (fun c => c ∉ map code ["/"; "#"; "?"]%char) n.
Proof.
  unfold re_match, URI_REGEX. generalize (list_ascii_of_string s) as inp.
  intros inp H.
  change (run (Cat ?a ?b) ?i ?e ?k) with (run a i e (fun r e' => run b r e' k)) in H.
  apply run_Group_matches in H as (ns & r1 & -> & Hns & H); [|reflexivity].
  change (run (Cat ?a ?b) ?i ?e ?k) with (run a i e (fun r e' => run b r e' k)) in H.
  apply run_Lit in H as (r2 & -> & H).
  change (run (Cat ?a ?b) ?i ?e ?k) with (run a i e (fun r e' => run b r e' k)) in H.
  apply run_Group_matches in H as (v & r3 & -> & Hv & H); [|reflexivity].
  change (run (Cat ?a ?b) ?i ?e ?k) with (run a i e (fun r e' => run b r e' k)) in H.
  apply run_Lit in H as (r4 & -> & H).
  change (run (Cat ?a ?b) ?i ?e ?k) with (run a i e (fun r e' => run b r e' k)) in H.
  change (run (Group ?nm (Plus (NoneOf ?cs))) ?i ?e ?k)
    with (plus_loop (one (none_of cs)) (Datatypes.S (length i)) i e
            (fun r e' => k r (e' ++ [(nm, take (length i - length r) i)]))) in H.
  apply plus_one_greedy_class in H as (n & r5 & -> & Hall & H & Hg); [|lia].
  rewrite take_consumed in H. simpl in H.
  exists ns, v, n.
  apply (chars_impl _ (fun c => c ∉ map code ["/"; "#"; "?"]%char)) in Hall;
    [|intros c; apply none_of_spec].
  destruct r5 as [|c [|c' r5]]; simpl in H; try discriminate.
  - rewrite app_nil_r. split_and!; try done. by injection H as <-.
  - destruct (Ascii.eqb c newline) eqn:E; [|discriminate].
    apply Ascii.eqb_eq in E as ->.
    specialize (Hg (code newline) [] eq_refl eq_refl). discriminate.
Qed.

Lemma parse_inv (s : string) (i : Identity) :
  parse s = Some i →
  ∃ ns v n,
    list_ascii_of_string s = ns ++ "/"%char :: v ++ "/"%char :: n ∧
    i = mkIdentity (string_of_list_ascii ns) (string_of_list_ascii v)
                   (string_of_list_ascii n) ∧
    matches namespace_re ns ∧ matches version_re v ∧
    chars (fun c => c ∉ map code ["/"; "#"; "?"]%char) n.
Proof.
  unfold parse. destruct (re_match URI_REGEX s) as [env|] eqn:E; [|discriminate].
  apply uri_match_wf in E as (ns & v & n & Hs & -> & Hns & Hv & Hn).
  intros H. exists ns, v, n. split_and!; try done.
  cbn [group] in H. rewrite !String.eqb_refl in H.
  change (String.eqb "namespace" "version") with false in H.
  change (String.eqb "namespace" "name") with false in H.
  change (String.eqb "version" "name") with false in H.
  by injection H as <-.
Qed.

(** *** Every text that matches is found *)

Lemma orelse_is_Some_l a b : is_Some a → is_Some (orelse a b).
Proof. by intros [x ->]. Qed.

Lemma orelse_is_Some_r a b : is_Some b → is_Some (orelse a b).
Proof. destruct a; simpl; eauto. Qed.

Lemma strip_prefix_self p rest : strip_prefix p (p ++ rest) = Some rest.
Proof. induction p as [|a p IH]; simpl; [by destruct rest|]. by rewrite Ascii.eqb_refl. Qed.

(** If the expression matches a prefix of the input after which the
    continuation succeeds, the run succeeds (on this or on an earlier path). *)
Lemma run_complete r pre :
  matches r pre → eos_free r = true →
  ∀ rest env k, (∀ e, is_Some (k rest e)) → is_Some (run r (pre ++ rest) env k).
Proof.
  induction 1 as [s|t c Ht Hc|t c Ht Hc|cs t c Ht Hc|r1 r2 p1 p2 _ IH1 _ IH2|r1|r1 p _ IH
                 |r1 p _ IH|r1 p1 p2 _ IH1 Hne _ IH2|n r1|n r1 p1 p2 _ IH1 _ IH2
                 |nm r1 p _ IH|];
    intros Hf rest env k Hk; cbn [run]; cbn [eos_free] in Hf.
  - rewrite strip_prefix_self. apply Hk.
  - unfold one. rewrite (next_char_app _ _ _ Ht).
    apply N.eqb_neq in Hc. rewrite Hc. apply Hk.
  - unfold one. rewrite (next_char_app _ _ _ Ht), Hc. apply Hk.
  - unfold one. rewrite (next_char_app _ _ _ Ht).
    apply none_of_spec in Hc. rewrite Hc. apply Hk.
  - apply andb_true_iff in Hf as [Hf1 Hf2]. rewrite <- app_assoc.
    apply IH1; [done|]. intros e. by apply IH2.
  - by apply orelse_is_Some_r.
  - apply orelse_is_Some_l. by apply IH.
  - cbn [plus_loop]. apply IH; [done|]. intros e. by apply orelse_is_Some_r.
  - cbn [plus_loop]. rewrite <- app_assoc. apply IH1; [done|]. intros e.
    apply orelse_is_Some_l. rewrite decide_True.
    + rewrite <- (run_Plus_fuel r1 (length (p1 ++ p2 ++ rest))).
      * by apply IH2.
      * destruct p1; [done|]. rewrite !length_app. simpl. lia.
    + destruct p1; [done|]. rewrite !length_app. simpl. lia.
  - cbn [upto_loop]. destruct n; [apply Hk|]. by apply orelse_is_Some_r.
  - cbn [upto_loop]. apply orelse_is_Some_l. rewrite <- app_assoc.
    apply IH1; [done|]. intros e. by apply (IH2 Hf rest e k).
  - apply IH; [done|]. intros e. apply Hk.
  - discriminate.
Qed.

(** The components of a well-formed identity, joined by slashes, match. *)
Lemma uri_match_complete (ns v n : list ascii) (s : string) :
  matches namespace_re ns → matches version_re v → matches name_re n →
  list_ascii_of_string s = ns ++ "/"%char :: v ++ "/"%char :: n →
  is_Some (re_match URI_REGEX s).
Proof.
  intros Hns Hv Hn Hs. unfold re_match. rewrite Hs. unfold URI_REGEX.
  change (run (Cat ?a ?b) ?i ?e ?k) with (run a i e (fun r e' => run b r e' k)).
  apply (run_complete (Group "namespace" namespace_re)); [by constructor|done|].
  intros e1.
  change (run (Cat ?a ?b) ?i ?e ?k) with (run a i e (fun r e' => run b r e' k)).
  apply (run_complete (Lit "/") (list_ascii_of_string "/")); [constructor|done|].
  intros e2.
  change (run (Cat ?a ?b) ?i ?e ?k) with (run a i e (fun r e' => run b r e' k)).
  apply (run_complete (Group "version" version_re)); [by constructor|done|].
  intros e3.
  change (run (Cat ?a ?b) ?i ?e ?k) with (run a i e (fun r e' => run b r e' k)).
  apply (run_complete (Lit "/") (list_ascii_of_string "/")); [constructor|done|].
  intros e4.
  change (run (Cat ?a ?b) ?i ?e ?k) with (run a i e (fun r e' => run b r e' k)).
  rewrite <- (app_nil_r n).
  apply (run_complete (Group "name" name_re)); [by constructor|done|].
  intros e5. simpl. eauto.
Qed.

(** *** The split is the one at the last two slashes *)

Lemma last_slash_unique (a b a' b' : list ascii) :
  "/"%char ∉ b → "/"%char ∉ b' →
  a ++ "/"%char :: b = a' ++ "/"%char :: b' → a = a' ∧ b = b'.
Proof.
  revert a'. induction a as [|c a IH]; intros [|c' a'] Hb Hb' H; simpl in H.
  - by injection H.
  - injection H as <- ->. destruct Hb. rewrite elem_of_app, elem_of_cons. auto.
  - injection H as -> <-. destruct Hb'. rewrite elem_of_app, elem_of_cons. auto.
  - injection H as <- H. destruct (IH a' Hb Hb' H) as [-> ->]. done.
Qed.

Lemma split_unique (ns v n ns' v' n' : list ascii) :
  "/"%char ∉ v → "/"%char ∉ n → "/"%char ∉ v' → "/"%char ∉ n' →
  ns ++ "/"%char :: v ++ "/"%char :: n = ns' ++ "/"%char :: v' ++ "/"%char :: n' →
  ns = ns' ∧ v = v' ∧ n = n'.
Proof.
  intros Hv Hn Hv' Hn' H.
  assert (H2 : (ns ++ "/"%char :: v) ++ "/"%char :: n
               = (ns' ++ "/"%char :: v') ++ "/"%char :: n')
    by (rewrite <- !app_assoc; exact H).
  apply last_slash_unique in H2 as [H2 ->]; [|done..].
  apply last_slash_unique in H2 as [-> ->]; done.
Qed.

Lemma version_slash_free (v : list ascii) : matches version_re v → "/"%char ∉ v.
Proof.
  intros (d & gs & (c & Hd & Hc) & _ & Hgs & ->)%matches_version.
  rewrite not_elem_of_app. split.
  - eapply char_no_byte; [done..|]. by intros ->.
  - induction Hgs as [|g gs Hg _ IH]; simpl; [apply not_elem_of_nil|].
    rewrite not_elem_of_cons, not_elem_of_app. split_and!; [done| |done].
    by eapply chars_no_byte.
Qed.

Lemma name_slash_free (n : list ascii) :
  chars (fun c => c ∉ map code ["/"; "#"; "?"]%char) n → "/"%char ∉ n.
Proof.
  intros H. eapply chars_no_byte; [exact H|done|]. intros Hn. apply Hn. left.
Qed.

Lemma list_ascii_of_string_app (a b : string) :
  list_ascii_of_string (a +:+ b) = list_ascii_of_string a ++ list_ascii_of_string b.
Proof. induction a as [|c a IH]; simpl; [done|]. by rewrite IH. Qed.

Lemma list_ascii_of_compose (i : Identity) :
  list_ascii_of_string (compose i)
  = list_ascii_of_string (namespace i) ++ "/"%char ::
    list_ascii_of_string (version i) ++ "/"%char :: list_ascii_of_string (name i).
Proof. unfold compose. by rewrite !list_ascii_of_string_app. Qed.

Lemma wf_of_matches (ns v n : list ascii) :
  matches namespace_re ns → matches version_re v →
  chars (fun c => c ∉ map code ["/"; "#"; "?"]%char) n →
  wf_identity (mkIdentity (string_of_list_ascii ns) (string_of_list_ascii v)
                          (string_of_list_ascii n)).
Proof.
  intros Hns Hv Hn.
  unfold wf_identity, wf_namespace, wf_version, wf_name. simpl.
  rewrite !list_ascii_of_string_of_list_ascii. split_and!; try done.
  - by apply matches_namespace.
  - by apply matches_version.
Qed.

Lemma version_of_wf (v : string) :
  wf_version v → matches version_re (list_ascii_of_string v).
Proof. intros H. by apply matches_version. Qed.

(** The canonical string of a well-formed identity is accepted and parsed
    into that identity. *)
Lemma parse_complete (i : Identity) : wf_identity i → parse (compose i) = Some i.
Proof.
  intros (Hns & Hv%version_of_wf & Hn). destruct i as [ns v n]. simpl in *.
  destruct (uri_match_complete (list_ascii_of_string ns) (list_ascii_of_string v)
              (list_ascii_of_string n) (compose (mkIdentity ns v n)))
    as [env Henv].
  - by apply matches_namespace.
  - done.
  - apply (class_plus_matches _ (fun c => c ∉ map code ["/"; "#"; "?"]%char)); [|done].
    intros t c Ht Hc. by apply (MNoneOf _ _ c).
  - apply list_ascii_of_compose.
  - assert (Hp : ∃ j, parse (compose (mkIdentity ns v n)) = Some j).
    { unfold parse. rewrite Henv.
      apply uri_match_wf in Henv as (? & ? & ? & _ & -> & _). vm_compute. eauto. }
    destruct Hp as [j Hj]. rewrite Hj. f_equal.
    apply parse_inv in Hj as (ns' & v' & n' & Hs & -> & _ & Hv' & Hn').
    rewrite list_ascii_of_compose in Hs. simpl in Hs.
    apply split_unique in Hs as (H1 & H2 & H3).
    + rewrite <- H1, <- H2, <- H3. by rewrite !string_of_list_ascii_of_string.
    + by apply version_slash_free.
    + by apply name_slash_free.
    + by apply version_slash_free.
    + by apply name_slash_free.
Qed.

End GrammarFacts.


(** The components of every accepted string are well formed: the namespace
    is [http://] or [https://] followed by at least one character and holds
    no newline after the scheme, the version is one decimal digit followed by
    at most two groups of a dot and decimal digits, and the name is not empty
    and has no [/], [#] or [?]. *)
Lemma parse_well_formed (s : string) (i : Identity) :
  parse s = Some i → wf_identity i.
Proof.
  intros (ns & v & n & _ & -> & Hns & Hv & Hn)%GrammarFacts.parse_inv.
  by apply GrammarFacts.wf_of_matches.
Qed.

(** X2: the split of an accepted string is the one at its last two slashes:
    whatever way the string is written as [ns/v/n] with no slash in [v] and
    in [n], the components found are [ns], [v] and [n]. *)
Theorem parse_unique_split (s : string) (i : Identity) (ns v n : string) :
  parse s = Some i →
  s = compose (mkIdentity ns v n) → slash_free v → slash_free n →
  i = mkIdentity ns v n.
Proof.
  intros (ns' & v' & n' & Hs & -> & Hns & Hv & Hn)%GrammarFacts.parse_inv.
  intros -> Hsv Hsn. rewrite GrammarFacts.list_ascii_of_compose in Hs. simpl in Hs.
  apply GrammarFacts.split_unique in Hs as (H1 & H2 & H3); try done.
  - rewrite <- H1, <- H2, <- H3. by rewrite !string_of_list_ascii_of_string.
  - by apply GrammarFacts.version_slash_free.
  - by apply GrammarFacts.name_slash_free.
Qed.

(** X1: the accepted strings are exactly the canonical strings of the
    well-formed identities, and each is parsed into the identity it was
    composed from.  A digit is any decimal digit of Unicode, as for [\d] in
    Python. *)
Theorem parse_iff_compose (s : string) (i : Identity) :
  parse s = Some i ↔ wf_identity i ∧ s = compose i.
Proof.
  split.
  - intros (ns & v & n & Hs & -> & Hns & Hv & Hn)%GrammarFacts.parse_inv.
    split; [by apply GrammarFacts.wf_of_matches|].
    unfold compose. simpl.
    rewrite <- (string_of_list_ascii_of_string s), Hs.
    rewrite RegexFacts.string_of_list_ascii_app. cbn.
    by rewrite RegexFacts.string_of_list_ascii_app.
  - intros [Hwf ->]. by apply GrammarFacts.parse_complete.
Qed.

(** X3: two well-formed identities with the same canonical string are the
    same identity. *)
Theorem compose_injective (i j : Identity) :
  wf_identity i → wf_identity j → compose i = compose j → i = j.
Proof.
  intros Hi%GrammarFacts.parse_complete Hj%GrammarFacts.parse_complete H.
  rewrite H in Hi. congruence.
Qed.

(** ** The mock store as a keyed collection *)

Section MockStoreFacts.
Variable get_uri : document → string.
Variable _prepare_entity : document → document.

Import ListFacts.

(** On a synced store [read] raises nothing: it returns the first document
  stored under the identity, or nothing. *)
Lemma mock_read_lookup (identity : string) (st : MockStore) :
synced st →
mock_read identity st
= Ok (if decide (identity ∈ test_data_uris st)
      then test_data st !! index identity (test_data_uris st) else None).
Proof.
intros Hs. unfold mock_read, stored. case_decide as Hi; [|done].
destruct (lookup_lt_is_Some_2 (test_data st) (index identity (test_data_uris st)))
  as [d ->]; [|done].
rewrite Hs. by apply index_bound.
Qed.

Lemma mock_read_present (identity : string) (st : MockStore) :
synced st → identity ∈ test_data_uris st →
∃ entity, mock_read identity st = Ok (Some entity) ∧
          test_data st !! index identity (test_data_uris st) = Some entity.
Proof.
intros Hs Hi. rewrite mock_read_lookup, decide_True by done.
destruct (lookup_lt_is_Some_2 (test_data st) (index identity (test_data_uris st)))
  as [d Hd]; [rewrite Hs; by apply index_bound|].
rewrite Hd. eauto.
Qed.

Lemma mock_read_absent (identity : string) (st : MockStore) :
identity ∉ test_data_uris st → mock_read identity st = Ok None.
Proof. intros Hi. unfold mock_read. by rewrite decide_False. Qed.

Lemma mock_update_present (identity : string) (entity : document) (st : MockStore) :
synced st → uri_valid identity = true → identity ∈ test_data_uris st →
mock_update _prepare_entity identity entity st
= (Ok tt, mkMockStore
            (<[index identity (test_data_uris st) := _prepare_entity entity]>
               (test_data st))
            (test_data_uris st)).
Proof.
intros Hs Hv Hi. unfold mock_update. rewrite Hv. simpl.
rewrite decide_True by done. rewrite decide_True; [done|].
rewrite Hs. by apply index_bound.
Qed.

Lemma mock_update_absent (identity : string) (entity : document) (st : MockStore) :
uri_valid identity = true → identity ∉ test_data_uris st →
mock_update _prepare_entity identity entity st = (Ok tt, st).
Proof. intros Hv Hi. unfold mock_update. rewrite Hv. simpl. by rewrite decide_False. Qed.

Lemma mock_create_store (entities : list document) (st : MockStore) :
snd (mock_create get_uri _prepare_entity entities st)
= mkMockStore (test_data st ++ map _prepare_entity entities)
              (test_data_uris st ++ map get_uri (map _prepare_entity entities)).
Proof.
destruct st as [data uris], entities as [|e [|e' es]]; simpl; try done.
by rewrite !app_nil_r.
Qed.

Lemma read_after_update (identity : string) (entity : document) (st : MockStore) :
synced st → identity ∈ test_data_uris st →
mock_read identity
  (mkMockStore
     (<[index identity (test_data_uris st) := _prepare_entity entity]> (test_data st))
     (test_data_uris st))
= Ok (Some (_prepare_entity entity)).
Proof.
intros Hs Hi. rewrite mock_read_lookup by (unfold synced; simpl; by rewrite length_insert).
simpl. rewrite decide_True by done. rewrite list_lookup_insert_eq; [done|].
rewrite Hs. by apply index_bound.
Qed.

Lemma read_after_update_other (identity other : string) (entity : document)
  (st : MockStore) :
synced st → identity ∈ test_data_uris st → other ≠ identity →
mock_read other
  (mkMockStore
     (<[index identity (test_data_uris st) := _prepare_entity entity]> (test_data st))
     (test_data_uris st))
= mock_read other st.
Proof.
intros Hs Hi Hne.
rewrite !mock_read_lookup; [|done|unfold synced; simpl; by rewrite length_insert].
simpl. case_decide as Ho; [|done]. rewrite list_lookup_insert_ne; [done|].
by apply index_ne.
Qed.

Lemma read_after_create_fresh (entity : document) (st : MockStore) :
synced st → get_uri (_prepare_entity entity) ∉ test_data_uris st →
mock_read (get_uri (_prepare_entity entity))
  (mkMockStore (test_data st ++ [_prepare_entity entity])
               (test_data_uris st ++ [get_uri (_prepare_entity entity)]))
= Ok (Some (_prepare_entity entity)).
Proof.
intros Hs Hi.
rewrite mock_read_lookup by (unfold synced in *; simpl; rewrite !length_app; simpl; lia).
simpl. rewrite decide_True by (rewrite elem_of_app; right; left).
rewrite index_app_r by done. simpl. rewrite String.eqb_refl, Nat.add_0_r, <- Hs.
by rewrite list_lookup_middle.
Qed.

Lemma read_after_create_old (identity : string) (new : list document) (st : MockStore) :
synced st → identity ∈ test_data_uris st →
mock_read identity
  (mkMockStore (test_data st ++ new) (test_data_uris st ++ map get_uri new))
= mock_read identity st.
Proof.
intros Hs Hi.
rewrite !mock_read_lookup;
  [|done|unfold synced in *; simpl; rewrite !length_app, length_map; lia].
simpl. rewrite !decide_True; [|done|rewrite elem_of_app; by left].
rewrite index_app_l by done. f_equal. apply lookup_app_l.
rewrite Hs. by apply index_bound.
Qed.

(** X4: updating through the mock backend.  On a synced store, [update] with
  a valid identity succeeds and keeps the store synced and its identities as
  they were; if the identity is in the store, a following [read] of it
  returns the document given (as prepared), else the store is as it was: an
  [update] never adds a document; the [read] of any other identity is
  unchanged. *)
Theorem mock_update_read (identity : string) (entity : document) (st : MockStore) :
synced st → uri_valid identity = true →
∃ st',
  mock_update _prepare_entity identity entity st = (Ok tt, st') ∧
  synced st' ∧ test_data_uris st' = test_data_uris st ∧
  (identity ∈ test_data_uris st →
   mock_read identity st' = Ok (Some (_prepare_entity entity))) ∧
  (identity ∉ test_data_uris st → st' = st) ∧
  (∀ other, other ≠ identity → mock_read other st' = mock_read other st).
Proof.
intros Hs Hv. destruct (decide (identity ∈ test_data_uris st)) as [Hi|Hi].
- eexists. split; [by apply mock_update_present|].
  assert (Hs' : synced (mkMockStore
            (<[index identity (test_data_uris st) := _prepare_entity entity]>
               (test_data st)) (test_data_uris st))).
  { unfold synced. simpl. by rewrite length_insert. }
  split_and!; try done.
  + intros _. by apply read_after_update.
  + intros other Hne. rewrite !mock_read_lookup by done. simpl.
    case_decide as Ho; [|done]. rewrite list_lookup_insert_ne; [done|].
    by apply index_ne.
- exists st. split; [by apply mock_update_absent|]. done.
Qed.

(** X5: creating through the mock backend.  On a synced store, [create]
  appends: the store stays synced and [count] grows by the size of the
  batch; what [read] returns for an identity that was in the store is
  unchanged, also when the batch holds a document with that identity; a
  created document whose identity was not in the store and is not that of an
  earlier document of the batch is what [read] returns for its identity. *)
Theorem mock_create_read (entities : list document) (st : MockStore) :
synced st →
let st' := snd (mock_create get_uri _prepare_entity entities st) in
synced st' ∧
(∀ n, mock_count None st = Ok n → mock_count None st' = Ok (n + length entities)) ∧
(∀ identity, identity ∈ test_data_uris st →
   mock_read identity st' = mock_read identity st) ∧
(∀ earlier entity later,
   map _prepare_entity entities = earlier ++ entity :: later →
   get_uri entity ∉ test_data_uris st →
   get_uri entity ∉ map get_uri earlier →
   mock_read (get_uri entity) st' = Ok (Some entity)).
Proof.
intros Hs st'. subst st'. rewrite mock_create_store.
assert (Hs' : synced (mkMockStore (test_data st ++ map _prepare_entity entities)
          (test_data_uris st ++ map get_uri (map _prepare_entity entities)))).
{ unfold synced in *. simpl. rewrite !length_app, !length_map. lia. }
split_and!; [done|..].
- intros n [= <-]. simpl. f_equal. by rewrite length_app, length_map.
- intros i Hi. by apply read_after_create_old.
- intros pre e post Hsplit Hfresh Hfirst.
  rewrite mock_read_lookup by done. simpl. rewrite Hsplit.
  rewrite decide_True.
  + rewrite index_app_r by done. rewrite map_app. simpl.
    rewrite index_app_r by done. simpl. rewrite String.eqb_refl.
    rewrite Nat.add_0_r, length_map, <- Hs.
    rewrite lookup_app_r by lia.
    replace (length (test_data st) + length pre - length (test_data st))
      with (length pre) by lia.
    by rewrite list_lookup_middle.
  + rewrite elem_of_app. right. rewrite map_app, elem_of_app. right. left.
Qed.

Lemma mock_delete_loop_spec (identities : list string) : ∀ st,
synced st →
∃ st',
  mock_delete_loop identities st = (Ok tt, st') ∧ synced st' ∧
  (∀ other, other ∉ identities →
     (other ∈ test_data_uris st' ↔ other ∈ test_data_uris st) ∧
     test_data st' !! index other (test_data_uris st')
     = test_data st !! index other (test_data_uris st)) ∧
  (NoDup (test_data_uris st) →
     NoDup (test_data_uris st') ∧
     ∀ identity, identity ∈ identities → identity ∉ test_data_uris st').
Proof.
induction identities as [|i ids IH]; intros st Hs.
- exists st. split_and!; try done. intros Hn. split; [done|].
  by intros ? ?%elem_of_nil.
- cbn [mock_delete_loop]. destruct (decide (i ∈ test_data_uris st)) as [Hi|Hi].
  + assert (Hb : index i (test_data_uris st) < length (test_data st))
      by (rewrite Hs; by apply index_bound).
    rewrite decide_True by done.
    set (st1 := mkMockStore (base.delete (index i (test_data_uris st)) (test_data st))
                            (remove i (test_data_uris st))).
    assert (Hs1 : synced st1).
    { unfold synced, st1. simpl.
      rewrite length_delete by by apply lookup_lt_is_Some_2.
      pose proof (length_remove i _ Hi). unfold synced in Hs. lia. }
    destruct (IH st1 Hs1) as (st' & Hd & Hs' & Hother & Hnd).
    exists st'. split_and!; try done.
    * intros o [Hoi Ho]%not_elem_of_cons. destruct (Hother o Ho) as [H1 H2].
      split.
      -- rewrite H1. unfold st1. simpl. by apply elem_of_remove_ne.
      -- rewrite H2. unfold st1. simpl. by apply lookup_after_remove.
    * intros Hn. destruct (remove_NoDup i _ Hn) as [Hn1 Hi1].
      destruct (Hnd Hn1) as [Hn' Hgone]. split; [done|].
      intros j [->|Hj]%elem_of_cons; [|by apply Hgone].
      destruct (decide (i ∈ ids)) as [Hin|Hin]; [by apply Hgone|].
      by rewrite (proj1 (Hother i Hin)).
  + destruct (IH st Hs) as (st' & Hd & Hs' & Hother & Hnd).
    exists st'. split_and!; try done.
    * intros o [Hoi Ho]%not_elem_of_cons. by apply Hother.
    * intros Hn. destruct (Hnd Hn) as [Hn' Hgone]. split; [done|].
      intros j [->|Hj]%elem_of_cons; [|by apply Hgone].
      destruct (decide (i ∈ ids)) as [Hin|Hin]; [by apply Hgone|].
      by rewrite (proj1 (Hother i Hin)).
Qed.

Lemma mock_delete_valid (identities : list string) (st : MockStore) :
Forall (fun identity => uri_valid identity = true) identities →
mock_delete identities st = mock_delete_loop identities st.
Proof.
intros Hv. unfold mock_delete.
replace (existsb _ identities) with false; [done|].
symmetry. apply not_true_is_false. rewrite existsb_exists.
intros (i & Hi & Hn). rewrite Forall_forall in Hv.
rewrite (Hv i) in Hn; [done|]. by apply list_elem_of_In.
Qed.

Lemma mock_delete_invalid (identities : list string) (bad : string) (st : MockStore) :
bad ∈ identities → uri_valid bad = false →
mock_delete identities st
= (Raise (MockBackendError "One or more invalid entity URIs given."), st).
Proof.
intros Hin Hb. unfold mock_delete.
replace (existsb _ identities) with true; [done|].
symmetry. apply existsb_exists. exists bad.
split; [by apply list_elem_of_In|]. by rewrite Hb.
Qed.

(** The store that a backend has once it is built, and the operations that
  leave a store as a backend built over its documents would have it. *)
Lemma built_uris (st : MockStore) :
built get_uri st ↔ test_data_uris st = map get_uri (test_data st).
Proof.
unfold built, mock_init. destruct st as [data uris]. simpl.
split; [by intros [= H]|by intros ->].
Qed.

Lemma built_synced (st : MockStore) : built get_uri st → synced st.
Proof. intros H%built_uris. unfold synced. by rewrite H, length_map. Qed.

Lemma built_update (identity : string) (entity : document) (st : MockStore) :
built get_uri st → identity ∈ test_data_uris st →
get_uri (_prepare_entity entity) = identity →
built get_uri
  (mkMockStore
     (<[index identity (test_data_uris st) := _prepare_entity entity]> (test_data st))
     (test_data_uris st)).
Proof.
intros Hb%built_uris Hi Hp. apply built_uris. simpl.
rewrite list_fmap_insert, Hp.
change (get_uri <$> test_data st) with (map get_uri (test_data st)).
rewrite <- Hb. symmetry. apply list_insert_id.
by apply lookup_index.
Qed.

Lemma built_create (new : list document) (st : MockStore) :
built get_uri st →
built get_uri
  (mkMockStore (test_data st ++ new) (test_data_uris st ++ map get_uri new)).
Proof. intros Hb%built_uris. apply built_uris. simpl. by rewrite map_app, Hb. Qed.

Lemma mock_delete_loop_built (identities : list string) (st : MockStore) :
built get_uri st → built get_uri (snd (mock_delete_loop identities st)).
Proof.
revert st. induction identities as [|i ids IH]; intros st Hb; simpl; [done|].
case_decide; [|by apply IH]. case_decide; [|done]. apply IH.
apply built_uris in Hb. apply built_uris. simpl.
rewrite remove_delete, map_delete. by rewrite <- Hb.
Qed.

(** After an update with a document of another identity, a backend built
  anew does not find the identity, where no identity was there twice. *)
Lemma rebuilt_after_update_other (identity : string) (entity : document)
  (st : MockStore) :
built get_uri st → NoDup (test_data_uris st) → identity ∈ test_data_uris st →
get_uri (_prepare_entity entity) ≠ identity →
identity ∉ test_data_uris
  (mock_init get_uri
     (<[index identity (test_data_uris st) := _prepare_entity entity]> (test_data st))).
Proof.
intros Hb%built_uris Hnd Hi Hne. simpl. rewrite list_fmap_insert.
change (get_uri <$> test_data st) with (map get_uri (test_data st)).
rewrite <- Hb. by apply not_elem_of_insert_index.
Qed.

(** X6: deleting through the mock backend.  On a synced store, [delete] of
  valid identities succeeds, whether they are in the store or not, and keeps
  the store synced; what [read] returns for an identity that was not given
  is unchanged; if no identity is twice in the store, none of the given
  identities is in the store afterwards and [read] finds nothing for them. *)
Theorem mock_delete_read (identities : list string) (st : MockStore) :
synced st →
Forall (fun identity => uri_valid identity = true) identities →
∃ st',
  mock_delete identities st = (Ok tt, st') ∧ synced st' ∧
  (∀ other, other ∉ identities → mock_read other st' = mock_read other st) ∧
  (NoDup (test_data_uris st) →
     ∀ identity, identity ∈ identities →
       (identity ∉ test_data_uris st') ∧ mock_read identity st' = Ok None).
Proof.
intros Hs Hv. rewrite mock_delete_valid by done.
destruct (mock_delete_loop_spec identities st Hs) as (st' & Hd & Hs' & Ho & Hn).
exists st'. split_and!; try done.
- intros o Hno. destruct (Ho o Hno) as [H1 H2].
  rewrite !mock_read_lookup by done. rewrite H2.
  destruct (decide (o ∈ test_data_uris st)) as [Hin|Hin].
  + rewrite decide_True; [done|]. by apply H1.
  + rewrite decide_False; [done|]. by rewrite H1.
- intros Hnd i Hi. destruct (Hn Hnd) as [_ Hgone].
  split; [by apply Hgone|]. apply mock_read_absent. by apply Hgone.
Qed.

(** X7: the mock backend checks identities before it changes anything:
  [delete] with one malformed identity among those given raises
  [MockBackendError] and removes nothing, also not the well-formed
  identities given with it, and [update] with a malformed identity raises
  [MockBackendError] and leaves the store as it was. *)
Theorem mock_validates_first (identities : list string) (bad : string)
  (entity : document) (st : MockStore) :
uri_valid bad = false →
(bad ∈ identities →
 mock_delete identities st
 = (Raise (MockBackendError "One or more invalid entity URIs given."), st)) ∧
mock_update _prepare_entity bad entity st
= (Raise (MockBackendError "Invalid entity URI"), st).
Proof.
intros Hbad. split.
- intros Hin. by apply (mock_delete_invalid identities bad).
- unfold mock_update. by rewrite Hbad.
Qed.

End MockStoreFacts.

(** ** Routes on the mock backend, one after the other *)

Section RoundTrips.
Variable get_uri : document → string.
Variable _prepare_entity : document → document.
Variable py_str : value → string.

Lemma in_mock (identity : string) (st : MockStore) (log : list call) :
in_backend (B:=MockBackend get_uri _prepare_entity) identity (st, log)
= (Ok (bool_decide (identity ∈ test_data_uris st)),
   (st, log ++ [CallContains identity])).
Proof. reflexivity. Qed.

Lemma get_entity_mock (identity : string) (st : MockStore) (log : list call) :
get_entity (B:=MockBackend get_uri _prepare_entity) identity (st, log)
= match mock_read identity st with
  | Ok (Some entity) => (Ok (mkResponse HTTP_200_OK entity), (st, log ++ [CallRead identity]))
  | Ok None => (Raise (HTTPException HTTP_404_NOT_FOUND), (st, log ++ [CallRead identity]))
  | Raise e => (Raise (Error e), (st, log ++ [CallRead identity]))
  end.
Proof.
unfold get_entity, bind, query, raise, ret. simpl.
by destruct (mock_read identity st) as [[d|]|e].
Qed.

(** X8: PUT then GET.  On a synced mock store, [PUT /entities/{identity}] of
  an entity with that identity answers 201 with the entity if the identity
  was not in the store and 204 if it was, and a following
  [GET /entities/{identity}] answers 200 with the entity as prepared.  The
  backend that the next request builds over the documents has the same
  store. *)
Theorem put_then_get (identity : string) (entity : document)
  (st : MockStore) (log : list call) :
synced st → uri_valid identity = true →
identity = get_uri entity → get_uri (_prepare_entity entity) = identity →
∃ r st' log',
  update_entity (B:=MockBackend get_uri _prepare_entity) get_uri identity entity
    (st, log) = (Ok r, (st', log')) ∧
  r = (if decide (identity ∈ test_data_uris st)
       then mkResponse HTTP_204_NO_CONTENT None
       else mkResponse HTTP_201_CREATED (Some entity)) ∧
  synced st' ∧
  get_entity (B:=MockBackend get_uri _prepare_entity) identity (st', log')
  = (Ok (mkResponse HTTP_200_OK (_prepare_entity entity)),
     (st', log' ++ [CallRead identity])) ∧
  (built get_uri st → built get_uri st').
Proof.
intros Hs Hv Hid Hprep. unfold update_entity.
rewrite <- Hid, String.eqb_refl. cbn [negb]. unfold bind at 1. rewrite in_mock.
destruct (decide (identity ∈ test_data_uris st)) as [Hi|Hi].
- rewrite bool_decide_eq_true_2 by done. cbn [negb].
  unfold bind, try_except, invoke, ret. cbn [fst snd update MockBackend].
  rewrite mock_update_present by done. cbn [lift].
  eexists _, _, _. split_and!; [reflexivity|done| | |].
  + unfold synced. simpl. by rewrite length_insert.
  + rewrite get_entity_mock, read_after_update by done. done.
  + intros Hb. by apply built_update.
- rewrite bool_decide_eq_false_2 by done. cbn [negb].
  unfold bind, try_except, invoke, ret. cbn [fst snd create MockBackend mock_create map].
  cbn [lift]. eexists _, _, _. split_and!; [reflexivity|done| | |].
  + unfold synced in *. simpl. rewrite !length_app. simpl. lia.
  + rewrite get_entity_mock. rewrite <- Hprep at 1.
    rewrite read_after_create_fresh; [done..|]. by rewrite Hprep.
  + intros Hb. by apply (built_create get_uri [_prepare_entity entity]).
Qed.

(** X9: DELETE then GET.  On a synced mock store in which no identity is
  stored twice, [DELETE /entities/{identity}] of an identity in the store
  answers 200 with the identity, a following [GET /entities/{identity}]
  answers 404 Not Found, and what [read] returns for any other identity is
  unchanged.  The backend that the next request builds over the documents
  has the same store. *)
Theorem delete_then_get (identity : string) (st : MockStore) (log : list call) :
synced st → NoDup (test_data_uris st) →
uri_valid identity = true → identity ∈ test_data_uris st →
∃ st' log',
  delete_entity (B:=MockBackend get_uri _prepare_entity) identity (st, log)
  = (Ok (mkResponse HTTP_200_OK identity), (st', log')) ∧
  synced st' ∧
  get_entity (B:=MockBackend get_uri _prepare_entity) identity (st', log')
  = (Raise (HTTPException HTTP_404_NOT_FOUND), (st', log' ++ [CallRead identity])) ∧
  (∀ other, other ≠ identity → mock_read other st' = mock_read other st) ∧
  (built get_uri st → built get_uri st').
Proof.
intros Hs Hnd Hv Hi. unfold delete_entity. unfold bind at 1. rewrite in_mock.
rewrite bool_decide_eq_true_2 by done. cbn [negb].
unfold bind, try_except, invoke, ret. cbn [fst snd delete MockBackend].
rewrite mock_delete_valid by (by constructor).
pose proof (mock_delete_loop_built get_uri [identity] st) as Hbuilt.
destruct (mock_delete_loop_spec [identity] st Hs) as (st' & Hd & Hs' & Ho & Hn).
rewrite Hd in Hbuilt |- *.
cbn [lift]. eexists _, _. split_and!; [reflexivity|done| | |exact Hbuilt].
- rewrite get_entity_mock, mock_read_absent; [done|].
  apply (Hn Hnd). left.
- intros o Hne. destruct (Ho o) as [H1 H2]; [by intros ->%list_elem_of_singleton|].
  rewrite !mock_read_lookup by done. rewrite H2.
  destruct (decide (o ∈ test_data_uris st)) as [Hin|Hin].
  + rewrite decide_True; [done|]. by apply H1.
  + rewrite decide_False; [done|]. by rewrite H1.
Qed.

(** X10: POST then GET.  On a synced mock store, [POST /entities/{identity}]
  of an entity that has this identity once prepared answers 201 with the
  prepared entity, whether the identity is in the store or not.  If it was
  not, a following [GET /entities/{identity}] answers 200 with the prepared
  entity; if it was, the document that [read] returns for the identity is
  the one from before.  The backend that the next request builds over the
  documents has the same store. *)
Theorem post_then_get (identity : string) (entity : document)
  (st : MockStore) (log : list call) :
synced st → get_uri (_prepare_entity entity) = identity →
∃ st' log',
  create_entity (B:=MockBackend get_uri _prepare_entity) get_uri identity entity
    (st, log)
  = (Ok (mkResponse HTTP_201_CREATED (_prepare_entity entity)), (st', log')) ∧
  synced st' ∧
  (identity ∉ test_data_uris st →
   get_entity (B:=MockBackend get_uri _prepare_entity) identity (st', log')
   = (Ok (mkResponse HTTP_200_OK (_prepare_entity entity)),
      (st', log' ++ [CallRead identity]))) ∧
  (identity ∈ test_data_uris st → mock_read identity st' = mock_read identity st) ∧
  (built get_uri st → built get_uri st').
Proof.
intros Hs Hprep. unfold create_entity.
unfold bind, try_except, invoke, ret. cbn [fst snd create MockBackend mock_create map].
cbn [lift]. rewrite Hprep, String.eqb_refl.
eexists _, _. split_and!; [reflexivity| | | |];
  [..|intros Hb; rewrite <- Hprep;
      by apply (built_create get_uri [_prepare_entity entity])].
- unfold synced in *. simpl. rewrite !length_app. simpl. lia.
- intros Hi. rewrite get_entity_mock. rewrite <- Hprep at 1 2.
  rewrite read_after_create_fresh; [done..|]. by rewrite Hprep.
- intros Hi. rewrite <- Hprep at 2.
  by apply (read_after_create_old get_uri _ [_prepare_entity entity]).
Qed.

(** X11: PATCH then GET.  On a mock backend as built over its documents,
  [PATCH /entities/{identity}] of an identity in the store with a body that
  passes the identity check answers 204 and puts the body, as prepared, in
  the place of the stored document: the mock does not merge the two.  The
  next request builds its backend over the documents.  If the body has the
  identity, [GET /entities/{identity}] then answers 200 with the body as
  prepared; if it has another identity or none, and no identity was stored
  twice, it answers 404 Not Found: the document is no longer found under
  the identity it was patched under. *)
Theorem patch_then_get (identity : string) (entity : document) (uri : option string)
  (st : MockStore) (log : list call) :
built get_uri st → uri_valid identity = true → identity ∈ test_data_uris st →
patch_mismatch py_str identity entity = Ok (false, uri) →
∃ st' log',
  patch_entity (B:=MockBackend get_uri _prepare_entity) py_str identity entity
    (st, log)
  = (Ok (mkResponse HTTP_204_NO_CONTENT tt), (st', log')) ∧
  test_data st'
  = <[index identity (test_data_uris st) := _prepare_entity entity]> (test_data st) ∧
  (get_uri (_prepare_entity entity) = identity →
   get_entity (B:=MockBackend get_uri _prepare_entity) identity
     (mock_init get_uri (test_data st'), log')
   = (Ok (mkResponse HTTP_200_OK (_prepare_entity entity)),
      (mock_init get_uri (test_data st'), log' ++ [CallRead identity]))) ∧
  (get_uri (_prepare_entity entity) ≠ identity → NoDup (test_data_uris st) →
   get_entity (B:=MockBackend get_uri _prepare_entity) identity
     (mock_init get_uri (test_data st'), log')
   = (Raise (HTTPException HTTP_404_NOT_FOUND),
      (mock_init get_uri (test_data st'), log' ++ [CallRead identity]))).
Proof.
intros Hb Hv Hi Hm. pose proof (built_synced get_uri st Hb) as Hs.
unfold patch_entity. rewrite Hm.
unfold bind at 1. rewrite in_mock.
rewrite bool_decide_eq_true_2 by done. cbn [negb].
unfold bind, try_except, invoke, ret. cbn [fst snd update MockBackend].
rewrite mock_update_present by done. cbn [lift].
eexists _, _. split_and!; [reflexivity|done| |]; cbn [test_data].
- intros Hp.
  pose proof (built_update get_uri _prepare_entity identity entity st Hb Hi Hp) as Hb'.
  unfold built in Hb'. cbn [test_data] in Hb'. rewrite <- Hb'.
  rewrite get_entity_mock, read_after_update by done. done.
- intros Hne Hnd. rewrite get_entity_mock, mock_read_absent; [done|].
  by apply rebuilt_after_update_other.
Qed.

End RoundTrips.

(** ** Statuses and partial application of the batch routes *)

Section BatchFacts.
Context {S : Type} {B : Backend S}.
Variable get_uri : document → string.

Lemma for_each_app {A} (xs ys : list A) (body : A → M S unit) (w : S * list call) :
for_each (xs ++ ys) body w
= match for_each xs body w with
  | (Ok _, w1) => for_each ys body w1
  | (Raise e, w1) => (Raise e, w1)
  end.
Proof.
revert w. induction xs as [|x xs IH]; intros w; simpl; [done|].
unfold bind. destruct (body x w) as [[[]|e] w1]; [apply IH|done].
Qed.

Lemma for_each_raises {A} (xs : list A) (body : A → M S unit) :
(∀ x w c w', body x w = (Raise (HTTPException c), w') → c = HTTP_502_BAD_GATEWAY) →
∀ w c w',
  for_each xs body w = (Raise (HTTPException c), w') → c = HTTP_502_BAD_GATEWAY.
Proof.
intros Hb. induction xs as [|x xs IH]; intros w c w'; simpl; [discriminate|].
unfold bind. destruct (body x w) as [[[]|e] w1] eqn:E.
- apply IH.
- intros [= -> ->]. by eapply Hb.
Qed.

(** One guarded backend call: the value, a 502 for a write-access exception,
  any other exception as it is. *)
Lemma guarded {A} (c : call) (f : S → result error A * S) (st : S) (log : list call) :
try_except (invoke c f) write_access_exception
  (fun _ => raise (HTTPException HTTP_502_BAD_GATEWAY)) (st, log)
= match f st with
  | (Ok a, st') => (Ok a, (st', log ++ [c]))
  | (Raise e, st') =>
      (if write_access_exception e
       then Raise (HTTPException HTTP_502_BAD_GATEWAY) else Raise (Error e),
       (st', log ++ [c]))
  end.
Proof.
unfold try_except, invoke, raise. simpl.
destruct (f st) as [[a|e] st']; simpl; [done|].
by destruct (write_access_exception e).
Qed.

Lemma guarded_raises {A} (c : call) (f : S → result error A * S)
  (w w' : S * list call) (code : nat) :
try_except (invoke c f) write_access_exception
  (fun _ => raise (HTTPException HTTP_502_BAD_GATEWAY)) w
= (Raise (HTTPException code), w') → code = HTTP_502_BAD_GATEWAY.
Proof.
destruct w as [st log]. rewrite guarded.
destruct (f st) as [[a|e] st']; [discriminate|].
destruct (write_access_exception e); congruence.
Qed.

Lemma as_batch_Many {A} (xs : list A) : xs ≠ [] → as_batch (Many xs) = Some xs.
Proof. by destruct xs. Qed.

(** X13: the batch routes answer every failure they report themselves with
  502 Bad Gateway: [POST], [PUT] and [PATCH /entities/] raise no
  [HTTPException] with another status, whatever the backend does; in
  particular none of them answers 404 Not Found or 400 Bad Request. *)
Theorem batch_routes_raise_502 (entities : one_or_many document)
  (w w' : S * list call) (code : nat) :
create_entities entities w = (Raise (HTTPException code), w') ∨
update_entities get_uri entities w = (Raise (HTTPException code), w') ∨
patch_entities get_uri entities w = (Raise (HTTPException code), w') →
code = HTTP_502_BAD_GATEWAY.
Proof.
destruct w as [st log]. intros [H|[H|H]].
- unfold create_entities in H. destruct (as_batch entities) as [es|]; [|discriminate].
  unfold bind in H. rewrite guarded in H.
  destruct (create es st) as [[c|e] st1].
  + destruct (create_failed (length es) c); unfold raise, ret in H; congruence.
  + destruct (write_access_exception e); congruence.
- unfold update_entities in H. destruct (as_batch entities) as [es|]; [|discriminate].
  unfold bind at 1 in H. rewrite comprehension_not_in in H.
  destruct (filter _ es) as [|n new]; [discriminate|].
  unfold bind at 1 in H. unfold bind at 1 in H. rewrite guarded in H.
  destruct (create (n :: new) st) as [[c|e] st1];
    [|destruct (write_access_exception e); congruence].
  unfold ret at 1 in H. unfold bind at 1 in H.
  destruct (create_failed (length (n :: new)) c);
    [unfold raise in H; congruence|].
  unfold ret at 1 in H. unfold bind in H.
  match type of H with
  | context [for_each ?xs ?body ?w0] =>
      destruct (for_each xs body w0) as [[[]|x] w1] eqn:E
  end; [discriminate|].
  injection H as -> ->. eapply for_each_raises; [|exact E].
  intros x w0 c0 w0'. cbv beta.
  destruct (document_in x (n :: new)); [unfold ret; by intros [=]|].
  destruct w0 as [s0 l0]. unfold in_backend, query. simpl.
  destruct (contains (get_uri x) s0); [|unfold ret; by intros [=]].
  apply guarded_raises.
- unfold patch_entities in H. destruct (as_batch entities) as [es|]; [|discriminate].
  unfold bind at 1 in H. rewrite comprehension_not_in in H.
  destruct (filter _ es) as [|n new]; [|unfold raise in H; congruence].
  unfold bind in H.
  match type of H with
  | context [for_each ?xs ?body ?w0] =>
      destruct (for_each xs body w0) as [[[]|x] w1] eqn:E
  end; [discriminate|].
  injection H as -> ->. eapply for_each_raises; [|exact E].
  intros x w0 c0 w0'. apply guarded_raises.
Qed.

(** X14: [PUT /entities/] never answers 204 No Content.  Whenever it
  returns, the status is 201; for a batch that is not empty, some entity of
  it was not in the store and the body is what [create] returned for the
  entities that were not, a value that passed the arity check. *)
Theorem update_entities_ok (entities : one_or_many document)
  (st : S) (log : list call) (r : response created) (w : S * list call) :
update_entities get_uri entities (st, log) = (Ok r, w) →
status_code r = HTTP_201_CREATED ∧
((as_batch entities = None ∧ body r = CreatedNone ∧ w = (st, log)) ∨
 ∃ es st1,
   as_batch entities = Some es ∧
   filter (fun entity => contains (get_uri entity) st = false) es ≠ [] ∧
   create (filter (fun entity => contains (get_uri entity) st = false) es) st
   = (Ok (body r), st1) ∧
   create_failed
     (length (filter (fun entity => contains (get_uri entity) st = false) es))
     (body r) = false).
Proof.
intros H. unfold update_entities in H.
destruct (as_batch entities) as [es|] eqn:Eb.
- unfold bind at 1 in H. rewrite comprehension_not_in in H.
  destruct (filter _ es) as [|n new] eqn:Ef; [discriminate|].
  unfold bind at 1 in H. unfold bind at 1 in H. rewrite guarded in H.
  destruct (create (n :: new) st) as [[c|e] st1] eqn:Ec;
    [|destruct (write_access_exception e); discriminate].
  unfold ret at 1 in H. unfold bind at 1 in H.
  destruct (create_failed (length (n :: new)) c) eqn:Ea; [discriminate|].
  unfold ret at 1 in H. unfold bind in H.
  match type of H with
  | context [for_each ?xs ?body ?w0] =>
      destruct (for_each xs body w0) as [[[]|x] w1]
  end; [|discriminate].
  injection H as <- <-. split; [done|]. right. exists es, st1. simpl.
  rewrite Ef. split_and!; done.
- injection H as <- <-. split; [done|]. by left.
Qed.

Lemma patch_loop_log (es : list document) : ∀ st,
∃ res st' calls, ∀ log,
  for_each es (fun entity =>
    try_except
      (invoke (CallUpdate (get_uri entity) entity) (update (get_uri entity) entity))
      write_access_exception
      (fun _ => raise (HTTPException HTTP_502_BAD_GATEWAY))) (st, log)
  = (res, (st', log ++ calls)).
Proof.
induction es as [|e es IH]; intros st.
- exists (Ok tt), st, []. intros log. simpl. by rewrite app_nil_r.
- destruct (update (get_uri e) e st) as [[[]|x] st1] eqn:E.
  + destruct (IH st1) as (res & st' & calls & Hl).
    exists res, st', (CallUpdate (get_uri e) e :: calls). intros log.
    cbn [for_each]. unfold bind. rewrite guarded, E, Hl.
    by rewrite <- app_assoc.
  + exists (if write_access_exception x
            then Raise (HTTPException HTTP_502_BAD_GATEWAY) else Raise (Error x)),
      st1, [CallUpdate (get_uri e) e].
    intros log. cbn [for_each]. unfold bind. rewrite guarded, E.
    destruct (write_access_exception x); reflexivity.
Qed.

(** X15: a batch patch is not rolled back.  When every entity of the batch is
  in the store and the update of one of them raises a write-access
  exception, [PATCH /entities/] answers 502 and leaves the store as the
  patch of the entities before that one, followed by the failed update,
  leaves it. *)
Theorem patch_entities_no_rollback
  (before after : list document) (failing : document)
  (st st1 st2 : S) (log log1 : list call) (r : response unit) (e : error) :
(∀ entity, entity ∈ before ++ failing :: after →
   contains (get_uri entity) st = true) →
patch_entities get_uri (Many before) (st, log) = (Ok r, (st1, log1)) →
update (get_uri failing) failing st1 = (Raise e, st2) →
write_access_exception e = true →
∃ log2,
  patch_entities get_uri (Many (before ++ failing :: after)) (st, log)
  = (Raise (HTTPException HTTP_502_BAD_GATEWAY), (st2, log2)).
Proof.
intros Hall Hbefore Hupd He.
destruct (patch_loop_log before st) as (res & st' & calls & Hloop).
assert (Hres : res = Ok tt ∧ st' = st1).
{ destruct before as [|b before]; [|].
  - injection Hbefore as _ <- _. specialize (Hloop []). simpl in Hloop.
    by injection Hloop as <- <- _.
  - unfold patch_entities in Hbefore. cbn [as_batch] in Hbefore.
    unfold bind at 1 in Hbefore. rewrite comprehension_not_in in Hbefore.
    rewrite (proj2 (filter_not_in_nil get_uri (b :: before) st)) in Hbefore.
    + unfold bind in Hbefore. rewrite Hloop in Hbefore.
      destruct res as [[]|x]; [|discriminate]. by injection Hbefore as _ <- _.
    + intros x Hx. apply Hall. rewrite elem_of_app. by left. }
destruct Hres as [-> ->].
unfold patch_entities. rewrite as_batch_Many by (by destruct before).
unfold bind at 1. rewrite comprehension_not_in.
rewrite (proj2 (filter_not_in_nil get_uri _ st)) by done.
unfold bind. rewrite for_each_app, Hloop. cbn [for_each]. unfold bind.
rewrite guarded, Hupd, He. eauto.
Qed.

(** X16: [POST /entities/{identity}] compares the identities after the
  backend has created the entity: when [create] returns a document with
  another identity, or anything but a document, the route answers 502 and
  the store is the one that [create] left. *)
Theorem create_entity_checks_late (identity : string) (entity : document)
  (st st' : S) (log : list call) (c : created) :
create [entity] st = (Ok c, st') →
(∀ d, c = CreatedDict d → get_uri d ≠ identity) →
create_entity get_uri identity entity (st, log)
= (Raise (HTTPException HTTP_502_BAD_GATEWAY), (st', log ++ [CallCreate [entity]])).
Proof.
intros Hc Hd. unfold create_entity, bind. rewrite guarded, Hc.
destruct c as [|d|l]; try reflexivity.
destruct (String.eqb (get_uri d) identity) eqn:E; [|reflexivity].
apply String.eqb_eq in E. by destruct (Hd d eq_refl).
Qed.

(** X17: the bulk delete makes one call on the backend, with every supplied
  identity in it once, however often it was supplied and whether in the
  body or in the query; the store is the one this call leaves, whether the
  call succeeds or fails. *)
Theorem delete_entities_one_call
  (identities_body : option (one_or_many string))
  (identities_query : option (list string))
  (identity : string) (st : S) (log : list call) :
supplied identities_body identities_query identity →
∃ identities res,
  delete_entities identities_body identities_query (st, log)
  = (res, (snd (delete identities st), log ++ [CallDelete identities])) ∧
  NoDup identities ∧
  ∀ i, i ∈ identities ↔ supplied identities_body identities_query i.
Proof.
intros Hi. unfold delete_entities.
set (ids := delete_set identities_body identities_query).
rewrite decide_False.
- unfold bind. rewrite guarded. exists (elements ids).
  destruct (delete (elements ids) st) as [[[]|e] st'] eqn:E.
  + eexists. split_and!; [reflexivity|apply NoDup_elements|].
    intros i. unfold ids. by rewrite elem_of_elements, elem_of_delete_set.
  + exists (if write_access_exception e
            then Raise (HTTPException HTTP_502_BAD_GATEWAY) else Raise (Error e)).
    split_and!; [by destruct (write_access_exception e)|apply NoDup_elements|].
    intros i. unfold ids. by rewrite elem_of_elements, elem_of_delete_set.
- apply elem_of_delete_set in Hi. fold ids in Hi. intros He. rewrite He in Hi.
  by apply elem_of_empty in Hi.
Qed.

End BatchFacts.

(** ** A batch of a new and an existing entity *)

Section MixedBatch.
Variable get_uri : document → string.
Variable _prepare_entity : document → document.

Lemma bind_eval {S A C} (m : M S A) (f : A → M S C) (w w' : S * list call) (a : A) :
m w = (Ok a, w') → bind m f w = f a w'.
Proof. intros H. unfold bind. by rewrite H. Qed.

(** X12: PUT of a batch of one new and one existing entity.  On a synced mock
  store, for two different documents, the first with an identity that is
  not in the store and the second with one that is, [PUT /entities/] makes
  one [create] call with the first alone and one [update] call for the
  second, and answers 201 with the first as prepared; afterwards [read]
  returns each of the two, as prepared, for its identity. *)
Theorem put_new_and_existing (new existing : document)
  (st : MockStore) (log : list call) :
synced st →
get_uri new ∉ test_data_uris st → get_uri existing ∈ test_data_uris st →
uri_valid (get_uri existing) = true →
document_eqb new new = true → document_eqb existing new = false →
get_uri (_prepare_entity new) = get_uri new →
∃ st',
  update_entities (B:=MockBackend get_uri _prepare_entity) get_uri
    (Many [new; existing]) (st, log)
  = (Ok (mkResponse HTTP_201_CREATED (CreatedDict (_prepare_entity new))),
     (st', log ++ [CallContains (get_uri new); CallContains (get_uri existing);
                   CallCreate [new];
                   CallContains (get_uri existing);
                   CallUpdate (get_uri existing) existing])) ∧
  mock_read (get_uri new) st' = Ok (Some (_prepare_entity new)) ∧
  mock_read (get_uri existing) st' = Ok (Some (_prepare_entity existing)).
Proof.
intros Hs Hn He Hv Hrefl Hdiff Hprep.
assert (Hne : get_uri new ≠ get_uri existing) by (intros Heq; by rewrite Heq in Hn).
set (st1 := mkMockStore (test_data st ++ [_prepare_entity new])
                        (test_data_uris st ++ [get_uri (_prepare_entity new)])).
assert (Hs1 : synced st1).
{ unfold synced in *. simpl. rewrite !length_app. simpl. lia. }
assert (He1 : get_uri existing ∈ test_data_uris st1).
{ simpl. rewrite elem_of_app. by left. }
eexists. split_and!.
- unfold update_entities. cbn [as_batch].
  erewrite bind_eval; [|apply comprehension_not_in].
  cbn [contains MockBackend]. unfold mock_contains. cbn [filter list_filter].
  rewrite decide_True by (by apply bool_decide_eq_false).
  rewrite decide_False by (rewrite bool_decide_eq_true_2 by done; done).
  erewrite bind_eval; [|erewrite bind_eval; [reflexivity|rewrite guarded; reflexivity]].
  cbn [create_failed is_none is_list length Nat.eqb orb andb].
  erewrite bind_eval; [|reflexivity].
  erewrite bind_eval; [reflexivity|].
  cbn [for_each document_in existsb]. rewrite Hrefl, Hdiff. cbn [orb].
  erewrite bind_eval; [|reflexivity].
  erewrite bind_eval; [reflexivity|].
  erewrite bind_eval; [|apply in_mock].
  cbn [snd create MockBackend mock_create map]. fold st1.
  rewrite (bool_decide_eq_true_2 _ He1). rewrite guarded.
  cbn [update MockBackend]. rewrite mock_update_present by done.
  rewrite <- !app_assoc. reflexivity.
- rewrite read_after_update_other; [|done..].
  rewrite <- Hprep at 1. apply read_after_create_fresh; [done|by rewrite Hprep].
- by apply read_after_update.
Qed.

End MixedBatch.

(** ** More on the search of the mock backend *)

Section SearchMore.
Variable get_uri : document → string.
Variable _prepare_entity : document → document.

Lemma select_sublist (test : document → result error bool) (data l : list document) :
select test data = Ok l → l `sublist_of` data.
Proof.
revert l. induction data as [|d data IH]; intros l; simpl.
- intros [= <-]. constructor.
- destruct (test d) as [b|]; [|discriminate].
  destruct (select test data) as [rest|]; [|discriminate].
  intros [= <-]. specialize (IH rest eq_refl).
  destruct b; [by apply sublist_skip|by apply sublist_cons].
Qed.

Lemma select_all_ok (test : document → result error bool) (data l : list document) :
select test data = Ok l → Forall (fun entity => ∃ b, test entity = Ok b) data.
Proof.
revert l. induction data as [|d data IH]; intros l; simpl; [constructor|].
destruct (test d) as [b|] eqn:E; [|discriminate].
destruct (select test data) as [rest|]; [|discriminate].
intros _. constructor; [eauto|]. by eapply IH.
Qed.

Lemma filter_part_sublist (field invalid : string) (by_names : option (list string))
  (st : MockStore) (l : list document) :
match truthy by_names with
| [] => Ok []
| names => select (field_matches field invalid names) (test_data st)
end = Ok l →
l `sublist_of` test_data st ∧
(truthy by_names ≠ [] → Forall (shaped field) (test_data st)).
Proof.
destruct (truthy by_names) as [|n ns] eqn:E.
- intros [= <-]. split; [apply sublist_nil_l|done].
- intros H. split; [by eapply select_sublist|]. intros _.
  apply select_all_ok in H. eapply Forall_impl; [exact H|].
  intros d [b Hb]. unfold shaped. unfold field_matches in Hb.
  by destruct (dict_get field d) as [[]|].
Qed.

Lemma lookup_all_found (by_identity : list string) (st : MockStore) :
synced st → lookup_all by_identity st = Ok (omap (found st) by_identity).
Proof.
intros Hs. induction by_identity as [|i ids IH]; [done|].
cbn [lookup_all omap list_omap]. unfold found at 1.
rewrite mock_read_lookup by done. case_decide as Hi.
- destruct (mock_read_present i st Hs Hi) as (d & _ & Hd).
  unfold stored. rewrite Hd, IH. done.
- by rewrite IH.
Qed.

(** X18: with no filter given ([None] or an empty list for each), the search
  of the mock backend finds nothing, whatever the store holds, and
  [GET /entities/] answers 404 Not Found: on the mock, no filter does not
  mean every entity. *)
Theorem get_entities_no_filter
  (identities properties dimensions : option (list string))
  (st : MockStore) (log : list call) :
truthy identities = [] → truthy properties = [] → truthy dimensions = [] →
mock_search properties dimensions identities st = Ok [] ∧
get_entities (B:=MockBackend get_uri _prepare_entity)
  identities properties dimensions (st, log)
= (Raise (HTTPException HTTP_404_NOT_FOUND),
   (st, log ++ [CallSearch properties dimensions identities])).
Proof.
intros Hi Hp Hd.
assert (Hs : mock_search properties dimensions identities st = Ok [])
  by (unfold mock_search; by rewrite Hi, Hp, Hd).
split; [done|]. unfold get_entities, bind, query, raise. simpl. by rewrite Hs.
Qed.

(** X19: a search by identity alone returns, on a synced store, what [read]
  finds for each of the requested identities, in the order of the request:
  identities that are not in the store are passed over, and an identity
  requested twice is answered twice. *)
Theorem search_by_identity
  (identities properties dimensions : option (list string)) (st : MockStore) :
synced st → truthy properties = [] → truthy dimensions = [] →
mock_search properties dimensions identities st
= Ok (omap (found st) (truthy identities)).
Proof.
intros Hs Hp Hd. unfold mock_search. rewrite Hp, Hd.
by rewrite lookup_all_found.
Qed.

(** X20: the result of a search, in its order: first the documents of the
  store that possess a requested property, in the order of the store, then
  those that possess a requested dimension, in the order of the store, then
  what [read] finds for each requested identity, in the order of the
  request.  A document that qualifies several times is there several
  times. *)
Theorem search_result_order
  (identities properties dimensions : option (list string))
  (st : MockStore) (results : list document) :
mock_search properties dimensions identities st = Ok results →
results
= filter (possesses "properties" (truthy properties)) (test_data st) ++
  filter (possesses "dimensions" (truthy dimensions)) (test_data st) ++
  omap (found st) (truthy identities).
Proof. apply mock_search_exact. Qed.

(** X21: a search by property (by dimension) that returns has found the
  [properties] (the [dimensions]) field, as a dict or as a list, in every
  document of the store: one document without the field, or with the field
  in another shape, makes every such search raise. *)
Theorem search_requires_fields
  (identities properties dimensions : option (list string))
  (st : MockStore) (results : list document) :
mock_search properties dimensions identities st = Ok results →
(truthy properties ≠ [] → Forall (shaped "properties") (test_data st)) ∧
(truthy dimensions ≠ [] → Forall (shaped "dimensions") (test_data st)).
Proof.
unfold mock_search.
destruct (match truthy properties with [] => _ | _ => _ end)
  as [ps|] eqn:Ep; [|discriminate].
destruct (match truthy dimensions with [] => _ | _ => _ end)
  as [ds|] eqn:Ed; [|discriminate].
intros _. split.
- by apply filter_part_sublist in Ep as [_ ?].
- by apply filter_part_sublist in Ed as [_ ?].
Qed.

Lemma name_in_true (requested : string) (props : list value) :
Forall is_dict props →
name_in requested props = Ok true ↔
∃ prop, VDict prop ∈ props ∧ dict_get "name" prop = Some (VStr requested).
Proof.
induction 1 as [|v props Hv _ IH].
- simpl. split; [discriminate|]. by intros (? & ?%elem_of_nil & _).
- destruct v as [| | | | |d]; try done. cbn [name_in].
  destruct (value_eqb (VStr requested) (default VNone (dict_get "name" d))) eqn:E.
  + split; [|done]. intros _. exists d. split; [left|].
    apply value_eqb_VStr in E.
    destruct (dict_get "name" d) as [v|]; simpl in E; [by rewrite E|discriminate].
  + rewrite IH. split.
    * intros (p & Hp & Hn). exists p. split; [by right|done].
    * intros (p & [[= ->]|Hp]%elem_of_cons & Hn); [|eauto].
      rewrite Hn in E. simpl in E. by rewrite String.eqb_refl in E.
Qed.

Lemma any_name_in_true (by_names : list string) (props : list value) :
Forall is_dict props →
any_name_in by_names props = Ok true ↔
∃ requested prop,
  requested ∈ by_names ∧ VDict prop ∈ props ∧
  dict_get "name" prop = Some (VStr requested).
Proof.
intros Hp. induction by_names as [|n ns IH]; simpl.
- split; [discriminate|]. by intros (? & ? & ?%elem_of_nil & _).
- destruct (name_in_dicts n props Hp) as [b Hb]. rewrite Hb.
  destruct b.
  + split; [|done]. intros _. apply name_in_true in Hb as (p & Hp1 & Hp2); [|done].
    exists n, p. split_and!; [left|done..].
  + rewrite IH. split.
    * intros (r & p & Hr & Hp1 & Hp2). exists r, p. split_and!; [by right|done..].
    * intros (r & p & [->|Hr]%elem_of_cons & Hp1 & Hp2); [|eauto 6].
      assert (name_in n props = Ok true) by (apply name_in_true; eauto).
      congruence.
Qed.

(** X22: the two dialects.  An entity whose field is a dict matches the
  requested names when one of them is a key of the dict; an entity whose
  field is a list of dicts matches when one of them is the [name] of an
  element of the list. *)
Theorem field_matches_dialects (field invalid : string) (by_names : list string)
  (entity : document) :
(∀ d, dict_get field entity = Some (VDict d) →
   field_matches field invalid by_names entity = Ok true ↔
   ∃ requested, requested ∈ by_names ∧ is_Some (dict_get requested d)) ∧
(∀ l, dict_get field entity = Some (VList l) → Forall is_dict l →
   field_matches field invalid by_names entity = Ok true ↔
   ∃ requested prop,
     requested ∈ by_names ∧ VDict prop ∈ l ∧
     dict_get "name" prop = Some (VStr requested)).
Proof.
split.
- intros d Hd. unfold field_matches. rewrite Hd. split.
  + intros [= (r & Hr & Hh)%existsb_exists]. exists r.
    split; [by apply list_elem_of_In|]. unfold dict_has in Hh.
    by destruct (dict_get r d).
  + intros (r & Hr & [v Hv]). f_equal. apply existsb_exists. exists r.
    split; [by apply list_elem_of_In|]. unfold dict_has. by rewrite Hv.
- intros l Hl Hdicts. unfold field_matches. rewrite Hl.
  by apply any_name_in_true.
Qed.

End SearchMore.
(** ** The properties at work on the fixtures *)

Lemma parse_iff_compose_witness :
  wf_identity (mkIdentity "http://x.org" "٣.12" "Box") ∧
  "http://x.org/٣.12/Box" = compose (mkIdentity "http://x.org" "٣.12" "Box").
Proof.
  apply (proj1 (parse_iff_compose "http://x.org/٣.12/Box"
                  (mkIdentity "http://x.org" "٣.12" "Box"))).
  vm_compute. reflexivity.
Defined.

Lemma parse_unique_split_witness :
  parse "http://x.org/a/0.1/Box" = Some (mkIdentity "http://x.org/a" "0.1" "Box").
Proof.
  destruct (parse "http://x.org/a/0.1/Box") as [i|] eqn:E;
    [|vm_compute in E; discriminate E].
  f_equal.
  apply (parse_unique_split "http://x.org/a/0.1/Box" i "http://x.org/a" "0.1" "Box").
  - exact E.
  - vm_compute. reflexivity.
  - decided.
  - decided.
Defined.

Lemma compose_injective_witness :
  mkIdentity "http://x.org" "0.1" "Box" = mkIdentity "http://x.org" "0.1" "Box".
Proof.
  apply (compose_injective (mkIdentity "http://x.org" "0.1" "Box")
           (mkIdentity "http://x.org" "0.1" "Box")).
  - apply (parse_well_formed "http://x.org/0.1/Box"). vm_compute. reflexivity.
  - apply (parse_well_formed "http://x.org/0.1/Box"). vm_compute. reflexivity.
  - reflexivity.
Defined.

Lemma mock_update_read_witness :
  ∃ st',
    mock_update id (derive_identity Box) Box2 store0 = (Ok tt, st') ∧
    mock_read (derive_identity Box) st' = Ok (Some Box2) ∧
    mock_read (derive_identity Ball) st' = Ok (Some Ball).
Proof.
  destruct (mock_update_read id (derive_identity Box) Box2 store0)
    as (st' & H1 & _ & _ & H2 & _ & H3).
  - reflexivity.
  - vm_compute. reflexivity.
  - exists st'. split; [exact H1|]. split.
    + apply H2. decided.
    + rewrite H3; [vm_compute; reflexivity|]. vm_compute. discriminate.
Defined.

Lemma mock_create_read_witness :
  mock_read (derive_identity Cone) (snd (mock_create derive_identity id [Cone] store0))
  = Ok (Some Cone).
Proof.
  pose proof (mock_create_read derive_identity id [Cone] store0 eq_refl) as H.
  cbv zeta in H. destruct H as (_ & _ & _ & H).
  apply (H [] Cone []).
  - reflexivity.
  - decided.
  - decided.
Defined.

Lemma mock_delete_read_witness :
  ∃ st',
    mock_delete [derive_identity Box; derive_identity Cone] store0 = (Ok tt, st') ∧
    mock_read (derive_identity Box) st' = Ok None ∧
    mock_read (derive_identity Ball) st' = Ok (Some Ball).
Proof.
  destruct (mock_delete_read [derive_identity Box; derive_identity Cone] store0)
    as (st' & H1 & _ & H2 & H3).
  - reflexivity.
  - repeat constructor; vm_compute; reflexivity.
  - exists st'. split; [exact H1|]. split.
    + apply H3; [decided|decided].
    + rewrite H2; [vm_compute; reflexivity|decided].
Defined.

Lemma mock_validates_first_witness :
  mock_delete [derive_identity Box; "urn:broken"] store1
  = (Raise (MockBackendError "One or more invalid entity URIs given."), store1) ∧
  mock_update id "urn:broken" Cone store1
  = (Raise (MockBackendError "Invalid entity URI"), store1).
Proof.
  destruct (mock_validates_first id [derive_identity Box; "urn:broken"] "urn:broken"
              Cone store1) as [H1 H2].
  - vm_compute. reflexivity.
  - split; [apply H1; decided|exact H2].
Defined.

Lemma put_then_get_witness :
  ∃ st' log',
    update_entity (B:=backend) derive_identity "http://x.org/0.1/Cone" Cone (store0, [])
    = (Ok (mkResponse HTTP_201_CREATED (Some Cone)), (st', log')) ∧
    get_entity (B:=backend) "http://x.org/0.1/Cone" (st', log')
    = (Ok (mkResponse HTTP_200_OK Cone), (st', log' ++ [CallRead "http://x.org/0.1/Cone"])).
Proof.
  destruct (put_then_get derive_identity id "http://x.org/0.1/Cone" Cone store0 [])
    as (r & st' & log' & H1 & H2 & _ & H3 & _).
  - reflexivity.
  - vm_compute. reflexivity.
  - vm_compute. reflexivity.
  - vm_compute. reflexivity.
  - exists st', log'. split; [|exact H3].
    etrans; [exact H1|]. f_equal. f_equal. etrans; [exact H2|].
    vm_compute. reflexivity.
Defined.

Lemma delete_then_get_witness :
  ∃ st' log',
    delete_entity (B:=backend) (derive_identity Box) (store0, [])
    = (Ok (mkResponse HTTP_200_OK (derive_identity Box)), (st', log')) ∧
    get_entity (B:=backend) (derive_identity Box) (st', log')
    = (Raise (HTTPException HTTP_404_NOT_FOUND),
       (st', log' ++ [CallRead (derive_identity Box)])) ∧
    mock_read (derive_identity Ball) st' = Ok (Some Ball).
Proof.
  destruct (delete_then_get derive_identity id (derive_identity Box) store0 [])
    as (st' & log' & H1 & _ & H2 & H3 & _).
  - reflexivity.
  - decided.
  - vm_compute. reflexivity.
  - decided.
  - exists st', log'. split; [exact H1|]. split; [exact H2|].
    rewrite H3; [vm_compute; reflexivity|]. vm_compute. discriminate.
Defined.

Lemma post_then_get_witness :
  ∃ st' log',
    create_entity (B:=backend) derive_identity "http://x.org/0.1/Cone" Cone (store0, [])
    = (Ok (mkResponse HTTP_201_CREATED Cone), (st', log')) ∧
    get_entity (B:=backend) "http://x.org/0.1/Cone" (st', log')
    = (Ok (mkResponse HTTP_200_OK Cone), (st', log' ++ [CallRead "http://x.org/0.1/Cone"])).
Proof.
  destruct (post_then_get derive_identity id "http://x.org/0.1/Cone" Cone store0 [])
    as (st' & log' & H1 & _ & H2 & _ & _).
  - reflexivity.
  - vm_compute. reflexivity.
  - exists st', log'. split; [exact H1|]. apply H2. decided.
Defined.

Lemma patch_then_get_witness :
  (∃ st' log',
     patch_entity (B:=backend) fixture_str (derive_identity Box) describe_box (store0, [])
     = (Ok (mkResponse HTTP_204_NO_CONTENT tt), (st', log')) ∧
     test_data st' = [describe_box; Ball] ∧
     get_entity (B:=backend) (derive_identity Box)
       (mock_init derive_identity (test_data st'), log')
     = (Ok (mkResponse HTTP_200_OK describe_box),
        (mock_init derive_identity (test_data st'),
         log' ++ [CallRead (derive_identity Box)]))) ∧
  (∃ st' log',
     patch_entity (B:=backend) fixture_str (derive_identity Box) describe (store0, [])
     = (Ok (mkResponse HTTP_204_NO_CONTENT tt), (st', log')) ∧
     test_data st' = [describe; Ball] ∧
     get_entity (B:=backend) (derive_identity Box)
       (mock_init derive_identity (test_data st'), log')
     = (Raise (HTTPException HTTP_404_NOT_FOUND),
        (mock_init derive_identity (test_data st'),
         log' ++ [CallRead (derive_identity Box)]))).
Proof.
  split.
  - destruct (patch_then_get derive_identity id fixture_str (derive_identity Box)
                describe_box None store0 [])
      as (st' & log' & H1 & H2 & H3 & _).
    + reflexivity.
    + vm_compute. reflexivity.
    + decided.
    + vm_compute. reflexivity.
    + exists st', log'. split; [exact H1|]. split; [exact H2|].
      apply H3. vm_compute. reflexivity.
  - destruct (patch_then_get derive_identity id fixture_str (derive_identity Box)
                describe None store0 [])
      as (st' & log' & H1 & H2 & _ & H3).
    + reflexivity.
    + vm_compute. reflexivity.
    + decided.
    + vm_compute. reflexivity.
    + exists st', log'. split; [exact H1|]. split; [exact H2|].
      apply H3; [vm_compute; discriminate|decided].
Defined.

Lemma put_new_and_existing_witness :
  ∃ st',
    update_entities (B:=backend) derive_identity (Many [Cone; Box2]) (store0, [])
    = (Ok (mkResponse HTTP_201_CREATED (CreatedDict Cone)),
       (st', [CallContains (derive_identity Cone); CallContains (derive_identity Box2);
              CallCreate [Cone];
              CallContains (derive_identity Box2);
              CallUpdate (derive_identity Box2) Box2])) ∧
    mock_read (derive_identity Cone) st' = Ok (Some Cone) ∧
    mock_read (derive_identity Box2) st' = Ok (Some Box2).
Proof.
  destruct (put_new_and_existing derive_identity id Cone Box2 store0 [])
    as (st' & H1 & H2 & H3).
  - reflexivity.
  - decided.
  - decided.
  - vm_compute. reflexivity.
  - vm_compute. reflexivity.
  - vm_compute. reflexivity.
  - vm_compute. reflexivity.
  - exists st'. split; [exact H1|]. split; [exact H2|exact H3].
Defined.

Lemma batch_routes_raise_502_witness :
  ∃ code,
    fst (patch_entities (B:=backend) derive_identity (Many [Box; Cone]) (store0, []))
    = Raise (HTTPException code) ∧
    code = HTTP_502_BAD_GATEWAY.
Proof.
  exists 502. split; [vm_compute; reflexivity|].
  apply (batch_routes_raise_502 (B:=backend) derive_identity (Many [Box; Cone])
           (store0, [])
           (store0, [CallContains (derive_identity Box); CallContains (derive_identity Cone)])
           502).
  right. right. vm_compute. reflexivity.
Defined.

Lemma update_entities_ok_witness :
  ∃ r w,
    update_entities (B:=backend) derive_identity (Many [Box; Cone]) (store0, []) = (Ok r, w) ∧
    status_code r = HTTP_201_CREATED.
Proof.
  eexists _, _. split; [vm_compute; reflexivity|].
  refine (proj1 (update_entities_ok (B:=backend) derive_identity (Many [Box; Cone])
                   store0 [] _ _ _)).
  vm_compute. reflexivity.
Defined.

Lemma patch_entities_no_rollback_witness :
  ∃ log2,
    patch_entities (B:=backend) derive_identity (Many [Box2; Broken]) (store1, [])
    = (Raise (HTTPException HTTP_502_BAD_GATEWAY),
       (mkMockStore [Box2; Broken] [derive_identity Box; derive_identity Broken], log2)).
Proof.
  refine (patch_entities_no_rollback (B:=backend) derive_identity [Box2] [] Broken
            store1 (mkMockStore [Box2; Broken] [derive_identity Box; derive_identity Broken])
            (mkMockStore [Box2; Broken] [derive_identity Box; derive_identity Broken])
            [] [CallContains (derive_identity Box2); CallUpdate (derive_identity Box2) Box2]
            (mkResponse HTTP_204_NO_CONTENT tt)
            (MockBackendError "Invalid entity URI") _ _ _ _).
  - intros entity [->|[->|H%elem_of_nil]%elem_of_cons]%elem_of_cons;
      [vm_compute; reflexivity|vm_compute; reflexivity|destruct H].
  - vm_compute. reflexivity.
  - vm_compute. reflexivity.
  - vm_compute. reflexivity.
Defined.

Lemma create_entity_checks_late_witness :
  create_entity (B:=backend) derive_identity (derive_identity Box) Cone (store0, [])
  = (Raise (HTTPException HTTP_502_BAD_GATEWAY),
     (mkMockStore [Box; Ball; Cone]
        [derive_identity Box; derive_identity Ball; derive_identity Cone],
      [CallCreate [Cone]])).
Proof.
  refine (create_entity_checks_late (B:=backend) derive_identity (derive_identity Box)
            Cone store0 _ [] (CreatedDict Cone) _ _).
  - vm_compute. reflexivity.
  - intros d [= <-]. vm_compute. discriminate.
Defined.

Lemma delete_entities_one_call_witness :
  ∃ identities res,
    delete_entities (B:=backend)
      (Some (Many [derive_identity Box; derive_identity Box]))
      (Some [derive_identity Box; derive_identity Ball]) (store0, [])
    = (res, (snd (mock_delete identities store0), [CallDelete identities])) ∧
    NoDup identities ∧ derive_identity Box ∈ identities.
Proof.
  destruct (delete_entities_one_call (B:=backend)
              (Some (Many [derive_identity Box; derive_identity Box]))
              (Some [derive_identity Box; derive_identity Ball])
              (derive_identity Box) store0 [])
    as (identities & res & H1 & H2 & H3).
  - left. left.
  - exists identities, res. split; [exact H1|]. split; [exact H2|].
    apply H3. left. left.
Defined.

Lemma get_entities_no_filter_witness :
  mock_search None None (Some []) store0 = Ok [] ∧
  get_entities (B:=backend) (Some []) None None (store0, [])
  = (Raise (HTTPException HTTP_404_NOT_FOUND),
     (store0, [CallSearch None None (Some [])])).
Proof.
  apply (get_entities_no_filter derive_identity id (Some []) None None store0 []);
    reflexivity.
Defined.

Lemma search_by_identity_witness :
  mock_search None None
    (Some [derive_identity Cone; derive_identity Ball; derive_identity Ball]) store0
  = Ok [Ball; Ball].
Proof.
  etrans.
  - apply (search_by_identity
             (Some [derive_identity Cone; derive_identity Ball; derive_identity Ball])
             None None store0); reflexivity.
  - vm_compute. reflexivity.
Defined.

Lemma search_result_order_witness :
  mock_search (Some ["height"; "radius"]) (Some ["n"])
    (Some [derive_identity Cone; derive_identity Box]) store2
  = Ok [Ball; Cone; Ball; Cone; Box] ∧
  [Ball; Cone; Ball; Cone; Box]
  = filter (possesses "properties" ["height"; "radius"]) [Box; Ball; Cone] ++
    filter (possesses "dimensions" ["n"]) [Box; Ball; Cone] ++
    omap (found store2) [derive_identity Cone; derive_identity Box].
Proof.
  assert (H : mock_search (Some ["height"; "radius"]) (Some ["n"])
                (Some [derive_identity Cone; derive_identity Box]) store2
              = Ok [Ball; Cone; Ball; Cone; Box]) by (vm_compute; reflexivity).
  split; [exact H|].
  apply (search_result_order (Some [derive_identity Cone; derive_identity Box])
           (Some ["height"; "radius"]) (Some ["n"]) store2 _ H).
Defined.

Lemma search_requires_fields_witness :
  Forall (shaped "properties") (test_data store0).
Proof.
  apply (proj1 (search_requires_fields None (Some ["length"]) None store0 [Box]
                  ltac:(vm_compute; reflexivity))).
  cbn. discriminate.
Defined.

Lemma field_matches_dialects_witness :
  field_matches "properties" "Invalid entity properties." ["mass"; "length"] Box = Ok true ∧
  field_matches "properties" "Invalid entity properties." ["mass"; "radius"] Ball = Ok true.
Proof.
  split.
  - apply (proj1 (field_matches_dialects "properties" "Invalid entity properties."
                    ["mass"; "length"] Box)
             [("length", VDict [("type", VStr "float")])] eq_refl).
    exists "length". split; [decided|]. by eexists.
  - apply (proj2 (field_matches_dialects "properties" "Invalid entity properties."
                    ["mass"; "radius"] Ball)
             [VDict [("name", VStr "radius"); ("type", VStr "float")]] eq_refl).
    + repeat constructor.
    + exists "radius", [("name", VStr "radius"); ("type", VStr "float")].
      split; [decided|]. split; [left|reflexivity].
Defined.
